(** * Heka pipeline core

    A shallow embedding of the message model ([message/message.go]), the
    dispatcher ([pipeline.go]: [pipeline], [filterProcessor], [BroadcastEvent],
    [PipelinePack.Zero]) and the output runner ([runner.go]: [Runner.Deliver],
    [Runner.FilterMsg], [Runner.Read], [Runner.RecycleOutData]), with the
    properties the specification states about them. *)

From Stdlib Require Import ZArith List String Ascii Lia Bool Floats DecimalString.
From Stdlib.Strings Require Import Byte.
From stdpp Require Import gmap strings list fin_maps.

Local Open Scope string_scope.
Local Open Scope list_scope.

(** ** The fragment of Go the sources rely on *)

Module Go.

(** A call that touches no state beyond its result: it returns, or it panics. *)
Inductive call (A : Type) : Type :=
| Ret (a : A)
| Panic.
Arguments Ret {A} a.
Arguments Panic {A}.

(** A call on a mutable state [S]: a normal return with its results, or a
    panic unwinding the stack.  The writes made before a panic stay in the
    state. *)
Inductive result (S A : Type) : Type :=
| Returned (a : A) (s : S)
| Panicked (s : S).
Arguments Returned {S A} a s.
Arguments Panicked {S A} s.

Definition state_of {S A} (r : result S A) : S :=
  match r with
  | Returned _ s => s
  | Panicked s => s
  end.

Definition error := string.

(** A slice is a window on a backing array: [items] are the elements below
    [len], [spare] the rest of the array up to [cap].  [alloc] tells a slice
    that has a backing array, possibly of no element, from the nil slice. *)
Record slice (A : Type) : Type := mkSlice {
  items : list A;
  spare : list A;
  alloc : bool
}.
Arguments mkSlice {A} items spare alloc.
Arguments items {A} s.
Arguments spare {A} s.
Arguments alloc {A} s.

Definition len {A} (s : slice A) : nat := length (items s).
Definition cap {A} (s : slice A) : nat := length (items s) + length (spare s).

(** The nil slice: no elements, no capacity. *)
Definition nil_slice {A} : slice A := mkSlice [] [] false.

(** [make([]T, n, c)], every cell holding T's zero value. *)
Definition make {A} (zero : A) (n c : nat) : slice A :=
  mkSlice (replicate n zero) (replicate (c - n) zero) true.

(** [copy(dst, src)]: the first [min(len(dst), len(src))] elements. *)
Definition copy {A} (dst src : slice A) : slice A :=
  let n := Nat.min (len dst) (len src) in
  mkSlice (take n (items src) ++ drop n (items dst)) (spare dst) (alloc dst).

(** [s[0:n]] for [n <= cap(s)] (Go panics beyond the capacity; the sources
    only reslice below it). *)
Definition reslice {A} (s : slice A) (n : nat) : slice A :=
  let b := items s ++ spare s in
  mkSlice (take n b) (drop n b) (alloc s).

(** [s[i] = x] for [i < len(s)]. *)
Definition set_index {A} (s : slice A) (i : nat) (x : A) : slice A :=
  mkSlice (<[i:=x]> (items s)) (spare s) (alloc s).

(** [[]T(x)] for the elements [x]: a slice over an array of its own. *)
Definition of_list {A} (x : list A) : slice A := mkSlice x [] true.

(** [s[:cap(s)]]. *)
Definition full {A} (s : slice A) : slice A := reslice s (cap s).

(** The growth idiom message.go repeats before every store at index
    [l = len(s)]:
<<
    if l == c { tmp := make([]T, l+1, c*2+1); copy(tmp, s); s = tmp }
    else      { s = s[0 : l+1] }
>> *)
Definition grow {A} (zero : A) (s : slice A) : slice A :=
  let l := len s in
  let c := cap s in
  if Nat.eqb l c then copy (make zero (l + 1) (c * 2 + 1)) s
  else reslice s (l + 1).

(** reflect.Kind *)
Inductive Kind : Type :=
| Invalid | Bool | Int | Int8 | Int16 | Int32 | Int64
| Uint | Uint8 | Uint16 | Uint32 | Uint64 | Uintptr
| Float32 | Float64 | Complex64 | Complex128
| Array | Chan | Func | Interface | Map | Ptr | Slice | String | Struct
| UnsafePointer.

#[global] Instance Kind_eq_dec : EqDecision Kind.
Proof. solve_decision. Defined.

(** What reflect.ValueOf(x) lets the sources observe of an [interface{}]
    argument [x]: its kind, for an array or slice the kind of its elements,
    the name of its type, and the payload the accessor of its kind returns. *)
Record Value : Type := mkValue {
  kind : Kind;
  elem_kind : Kind;
  type_name : string;
  as_string : string;
  as_bytes : list byte;
  as_int : Z;
  as_float : float;
  as_bool : bool
}.

(** [v.Type()] panics on the zero Value (the reflection of a nil interface). *)
Definition Value_Type (v : Value) : call string :=
  if decide (kind v = Invalid) then Panic else Ret (type_name v).

(** [v.String()] never panics: for another kind it renders the type. *)
Definition Value_String (v : Value) : string :=
  if decide (kind v = String) then as_string v
  else "<" +:+ type_name v +:+ " Value>".

(** [v.Bytes()] panics unless [v] is a slice of bytes. *)
Definition Value_Bytes (v : Value) : call (list byte) :=
  if decide (kind v = Slice) then
    if decide (elem_kind v = Uint8) then Ret (as_bytes v) else Panic
  else Panic.

Definition is_int_kind (k : Kind) : bool :=
  match k with
  | Int | Int8 | Int16 | Int32 | Int64 => true
  | _ => false
  end.

Definition is_float_kind (k : Kind) : bool :=
  match k with
  | Float32 | Float64 => true
  | _ => false
  end.

(** [v.Int()], [v.Float()] and [v.Bool()] panic on a value of another kind. *)
Definition Value_Int (v : Value) : call Z :=
  if is_int_kind (kind v) then Ret (as_int v) else Panic.

Definition Value_Float (v : Value) : call float :=
  if is_float_kind (kind v) then Ret (as_float v) else Panic.

Definition Value_Bool (v : Value) : call bool :=
  if decide (kind v = Bool) then Ret (as_bool v) else Panic.

(** Reflections of the values the callers pass. *)
Definition of_string (s : string) : Value :=
  mkValue String Invalid "string" s [] 0 0%float false.
Definition of_byte_array (b : list byte) : Value :=
  mkValue Array Uint8 "[N]uint8" "" b 0 0%float false.
Definition of_int (n : Z) : Value :=
  mkValue Int Invalid "int" "" [] n 0%float false.
Definition of_float64 (x : float) : Value :=
  mkValue Float64 Invalid "float64" "" [] 0 x false.
Definition of_bool (b : bool) : Value :=
  mkValue Bool Invalid "bool" "" [] 0 0%float b.
Definition of_nil : Value :=
  mkValue Invalid Invalid "" "" [] 0 0%float false.

Lemma grow_store {A} (zero x : A) (s : slice A) :
  items (set_index (grow zero s) (len s) x) = items s ++ [x].
Proof.
  destruct s as [it sp al].
  unfold grow, set_index, copy, make, reslice, len, cap; simpl.
  destruct (Nat.eqb_spec (length it) (length it + length sp)) as [E|E]; simpl.
  - rewrite length_replicate, Nat.min_r by lia.
    rewrite take_ge, drop_replicate by lia.
    replace (length it + 1 - length it) with 1 by lia; simpl.
    rewrite insert_app_r_alt, Nat.sub_diag by lia. reflexivity.
  - destruct sp as [|y sp]; simpl in *; [lia|].
    rewrite take_app_ge by lia.
    replace (length it + 1 - length it) with 1 by lia; simpl.
    rewrite insert_app_r_alt, Nat.sub_diag by lia. reflexivity.
Qed.

Lemma grow_insert {A} (zero x : A) (s : slice A) :
  <[len s := x]> (items (grow zero s)) = items s ++ [x].
Proof. exact (grow_store zero x s). Qed.

Lemma copy_of_list {A} (zero : A) (b : list A) :
  items (copy (make zero (length b) (length b)) (of_list b)) = b.
Proof.
  unfold copy, make, of_list, len; simpl.
  rewrite length_replicate, Nat.min_id, take_ge, drop_ge, app_nil_r
    by (rewrite ?length_replicate; lia).
  reflexivity.
Qed.

End Go.

(** ** message/message.go *)

Module Message.
Import Go.

Definition UUID_SIZE : nat := 16.

(** The value-type enumeration of message.pb.go.  [Field_STRING] is its zero
    value: what an unassigned [Field_ValueType] variable holds. *)
Inductive Field_ValueType : Type :=
| Field_STRING | Field_BYTES | Field_INTEGER | Field_DOUBLE | Field_BOOL.

#[global] Instance Field_ValueType_eq_dec : EqDecision Field_ValueType.
Proof. solve_decision. Defined.

Definition Field_ValueType_name (t : Field_ValueType) : string :=
  match t with
  | Field_STRING => "STRING"
  | Field_BYTES => "BYTES"
  | Field_INTEGER => "INTEGER"
  | Field_DOUBLE => "DOUBLE"
  | Field_BOOL => "BOOL"
  end.

(** The representation hint, an int32 enumeration whose zero is RAW. *)
Definition Field_ValueFormat : Type := Z.
Definition Field_RAW : Field_ValueFormat := 0%Z.

(** Optional (pointer) attributes are [option]s: [None] is the nil pointer. *)
Record Field : Type := mkField {
  Name : option string;
  ValueType : option Field_ValueType;
  ValueFormat : option Field_ValueFormat;
  ValueString : slice string;
  ValueBytes : slice (slice byte);
  ValueInteger : slice Z;
  ValueDouble : slice float;
  ValueBool : slice bool;
  XXX_unrecognized : slice byte
}.

Definition with_ValueString (s : slice string) (f : Field) : Field :=
  mkField (Name f) (ValueType f) (ValueFormat f) s (ValueBytes f)
    (ValueInteger f) (ValueDouble f) (ValueBool f) (XXX_unrecognized f).
Definition with_ValueBytes (s : slice (slice byte)) (f : Field) : Field :=
  mkField (Name f) (ValueType f) (ValueFormat f) (ValueString f) s
    (ValueInteger f) (ValueDouble f) (ValueBool f) (XXX_unrecognized f).
Definition with_ValueInteger (s : slice Z) (f : Field) : Field :=
  mkField (Name f) (ValueType f) (ValueFormat f) (ValueString f) (ValueBytes f)
    s (ValueDouble f) (ValueBool f) (XXX_unrecognized f).
Definition with_ValueDouble (s : slice float) (f : Field) : Field :=
  mkField (Name f) (ValueType f) (ValueFormat f) (ValueString f) (ValueBytes f)
    (ValueInteger f) s (ValueBool f) (XXX_unrecognized f).
Definition with_ValueBool (s : slice bool) (f : Field) : Field :=
  mkField (Name f) (ValueType f) (ValueFormat f) (ValueString f) (ValueBytes f)
    (ValueInteger f) (ValueDouble f) s (XXX_unrecognized f).

(** [Fields] holds pointers to fields; [None] is a nil entry. *)
Record Message : Type := mkMessage {
  Uuid : slice byte;
  Timestamp : option Z;
  Type_ : option string;
  Logger : option string;
  Severity : option Z;
  Payload : option string;
  EnvVersion : option string;
  Pid : option Z;
  Hostname : option string;
  Fields : slice (option Field)
}.

(** [&Message{}] *)
Definition empty_Message : Message :=
  mkMessage nil_slice None None None None None None None None nil_slice.

(** Methods have pointer receivers: the receiver is [None] for a nil pointer
    and the method returns what the receiver points to afterwards. *)

Definition SetUuid (m : option Message) (v : slice byte) : option Message :=
  match m with
  | Some m =>
    let u := if negb (Nat.eqb (len (Uuid m)) UUID_SIZE)
             then make x00 UUID_SIZE UUID_SIZE else Uuid m in
    Some (mkMessage (copy u v) (Timestamp m) (Type_ m) (Logger m) (Severity m)
            (Payload m) (EnvVersion m) (Pid m) (Hostname m) (Fields m))
  | None => None
  end.

Definition SetTimestamp (m : option Message) (v : Z) : option Message :=
  match m with
  | Some m =>
    Some (mkMessage (Uuid m) (Some v) (Type_ m) (Logger m) (Severity m)
            (Payload m) (EnvVersion m) (Pid m) (Hostname m) (Fields m))
  | None => None
  end.

Definition SetType (m : option Message) (v : string) : option Message :=
  match m with
  | Some m =>
    Some (mkMessage (Uuid m) (Timestamp m) (Some v) (Logger m) (Severity m)
            (Payload m) (EnvVersion m) (Pid m) (Hostname m) (Fields m))
  | None => None
  end.

Definition SetLogger (m : option Message) (v : string) : option Message :=
  match m with
  | Some m =>
    Some (mkMessage (Uuid m) (Timestamp m) (Type_ m) (Some v) (Severity m)
            (Payload m) (EnvVersion m) (Pid m) (Hostname m) (Fields m))
  | None => None
  end.

Definition SetSeverity (m : option Message) (v : Z) : option Message :=
  match m with
  | Some m =>
    Some (mkMessage (Uuid m) (Timestamp m) (Type_ m) (Logger m) (Some v)
            (Payload m) (EnvVersion m) (Pid m) (Hostname m) (Fields m))
  | None => None
  end.

Definition SetPayload (m : option Message) (v : string) : option Message :=
  match m with
  | Some m =>
    Some (mkMessage (Uuid m) (Timestamp m) (Type_ m) (Logger m) (Severity m)
            (Some v) (EnvVersion m) (Pid m) (Hostname m) (Fields m))
  | None => None
  end.

Definition SetEnvVersion (m : option Message) (v : string) : option Message :=
  match m with
  | Some m =>
    Some (mkMessage (Uuid m) (Timestamp m) (Type_ m) (Logger m) (Severity m)
            (Payload m) (Some v) (Pid m) (Hostname m) (Fields m))
  | None => None
  end.

Definition SetPid (m : option Message) (v : Z) : option Message :=
  match m with
  | Some m =>
    Some (mkMessage (Uuid m) (Timestamp m) (Type_ m) (Logger m) (Severity m)
            (Payload m) (EnvVersion m) (Some v) (Hostname m) (Fields m))
  | None => None
  end.

Definition SetHostname (m : option Message) (v : string) : option Message :=
  match m with
  | Some m =>
    Some (mkMessage (Uuid m) (Timestamp m) (Type_ m) (Logger m) (Severity m)
            (Payload m) (EnvVersion m) (Pid m) (Some v) (Fields m))
  | None => None
  end.

(** [getValueType]: the switch assigns [t] in the cases it knows and [err] in
    the default case; an array or slice of another element kind falls through
    with both at their zero values.  The default case formats [v.Type()]. *)
Definition getValueType (v : Value) : call (Field_ValueType * option error) :=
  match kind v with
  | String => Ret (Field_STRING, None)
  | Array | Slice =>
    if decide (elem_kind v = Uint8) then Ret (Field_BYTES, None)
    else Ret (Field_STRING, None)
  | Int | Int8 | Int16 | Int32 | Int64 => Ret (Field_INTEGER, None)
  | Float32 | Float64 => Ret (Field_DOUBLE, None)
  | Bool => Ret (Field_BOOL, None)
  | _ =>
    match Value_Type v with
    | Ret ty => Ret (Field_STRING, Some ("unsupported value kind, type: " +:+ ty))
    | Panic => Panic
    end
  end.

(** Adds a Field (name/value) pair to the message. *)
Definition AddField (m : option Message) (f : option Field) : option Message :=
  match m with
  | None => None
  | Some m =>
    let l := len (Fields m) in
    let fs := set_index (grow None (Fields m)) l f in
    Some (mkMessage (Uuid m) (Timestamp m) (Type_ m) (Logger m) (Severity m)
            (Payload m) (EnvVersion m) (Pid m) (Hostname m) fs)
  end.

(** Field initializer: key, value type and format, no value. *)
Definition NewFieldInit (name : string) (valueType : Field_ValueType)
    (valueFormat : Field_ValueFormat) : Field :=
  mkField (Some name) (Some valueType) (Some valueFormat)
    nil_slice nil_slice nil_slice nil_slice nil_slice nil_slice.

Definition mismatch_error (have got : Field_ValueType) : error :=
  "The field contains: " +:+ Field_ValueType_name have +:+
  "; attempted to add " +:+ Field_ValueType_name got.

(** [Field.AddValue]: the receiver's pointee afterwards and the error
    returned, or a panic. *)
Definition AddValue (f : option Field) (value : Value)
    : result (option Field) (option error) :=
  match f with
  | None => Returned (Some "Field is nil") None
  | Some fd =>
    match getValueType value with
    | Panic => Panicked f
    | Ret (_, Some err) => Returned (Some err) f
    | Ret (t, None) =>
      match ValueType fd with
      | None => Panicked f
      | Some ft =>
        if negb (bool_decide (t = ft))
        then Returned (Some (mismatch_error ft t)) f
        else
          match ft with
          | Field_STRING =>
            let l := len (ValueString fd) in
            let s := grow "" (ValueString fd) in
            Returned None
              (Some (with_ValueString (set_index s l (Value_String value)) fd))
          | Field_BYTES =>
            let l := len (ValueBytes fd) in
            let s := grow nil_slice (ValueBytes fd) in
            match Value_Bytes value with
            | Panic => Panicked (Some (with_ValueBytes s fd))
            | Ret b =>
              let fresh := copy (make x00 (length b) (length b)) (of_list b) in
              Returned None (Some (with_ValueBytes (set_index s l fresh) fd))
            end
          | Field_INTEGER =>
            let l := len (ValueInteger fd) in
            let s := grow 0%Z (ValueInteger fd) in
            match Value_Int value with
            | Panic => Panicked (Some (with_ValueInteger s fd))
            | Ret n =>
              Returned None (Some (with_ValueInteger (set_index s l n) fd))
            end
          | Field_DOUBLE =>
            let l := len (ValueDouble fd) in
            let s := grow 0%float (ValueDouble fd) in
            match Value_Float value with
            | Panic => Panicked (Some (with_ValueDouble s fd))
            | Ret x =>
              Returned None (Some (with_ValueDouble (set_index s l x) fd))
            end
          | Field_BOOL =>
            let l := len (ValueBool fd) in
            let s := grow false (ValueBool fd) in
            match Value_Bool value with
            | Panic => Panicked (Some (with_ValueBool s fd))
            | Ret b =>
              Returned None (Some (with_ValueBool (set_index s l b) fd))
            end
          end
      end
    end
  end.

(** Field constructor.  The result of [f.AddValue] is dropped. *)
Definition NewField (name : string) (value : Value)
    (valueFormat : Field_ValueFormat) : call (option Field * option error) :=
  match getValueType value with
  | Panic => Panic
  | Ret (_, Some err) => Ret (None, Some err)
  | Ret (t, None) =>
    match AddValue (Some (NewFieldInit name t valueFormat)) value with
    | Returned _ f => Ret (f, None)
    | Panicked _ => Panic
    end
  end.

(** *** Equality of messages *)

Fixpoint all2 {A} (eqb : A -> A -> bool) (a b : list A) : bool :=
  match a, b with
  | [], [] => true
  | x :: a', y :: b' => eqb x y && all2 eqb a' b'
  | _, _ => false
  end.

(** Two pointers that are both nil, or whose pointees are equal. *)
Definition ptr_eq {A} (eqb : A -> A -> bool) (s o : option A) : bool :=
  match s, o with
  | None, None => true
  | Some a, Some b => eqb a b
  | _, _ => false
  end.

(** [bytes.Equal]: a nil slice equals an empty one. *)
Definition bytes_Equal (a b : slice byte) : bool :=
  all2 Byte.eqb (items a) (items b).

(** [reflect.DeepEqual] on slices: both nil or both not, the same length,
    and deeply equal elements. *)
Definition slice_DeepEqual {A} (eqb : A -> A -> bool) (a b : slice A) : bool :=
  Bool.eqb (alloc a) (alloc b) && all2 eqb (items a) (items b).

Definition Field_ValueType_eqb (a b : Field_ValueType) : bool := bool_decide (a = b).

(** [reflect.DeepEqual] on two [Field] structs; floats compare with [==]. *)
Definition Field_DeepEqual (a b : Field) : bool :=
  ptr_eq String.eqb (Name a) (Name b) &&
  ptr_eq Field_ValueType_eqb (ValueType a) (ValueType b) &&
  ptr_eq Z.eqb (ValueFormat a) (ValueFormat b) &&
  slice_DeepEqual String.eqb (ValueString a) (ValueString b) &&
  slice_DeepEqual (slice_DeepEqual Byte.eqb) (ValueBytes a) (ValueBytes b) &&
  slice_DeepEqual Z.eqb (ValueInteger a) (ValueInteger b) &&
  slice_DeepEqual PrimFloat.eqb (ValueDouble a) (ValueDouble b) &&
  slice_DeepEqual Bool.eqb (ValueBool a) (ValueBool b) &&
  slice_DeepEqual Byte.eqb (XXX_unrecognized a) (XXX_unrecognized b).

(** Test for message equality, field by field in the order of the struct:
    the uuid bytes, the eight optional attributes, the fields. *)
Definition Equals (m other : Message) : bool :=
  bytes_Equal (Uuid m) (Uuid other) &&
  ptr_eq Z.eqb (Timestamp m) (Timestamp other) &&
  ptr_eq String.eqb (Type_ m) (Type_ other) &&
  ptr_eq String.eqb (Logger m) (Logger other) &&
  ptr_eq Z.eqb (Severity m) (Severity other) &&
  ptr_eq String.eqb (Payload m) (Payload other) &&
  ptr_eq String.eqb (EnvVersion m) (EnvVersion other) &&
  ptr_eq Z.eqb (Pid m) (Pid other) &&
  ptr_eq String.eqb (Hostname m) (Hostname other) &&
  slice_DeepEqual (ptr_eq Field_DeepEqual) (Fields m) (Fields other).

Definition with_Uuid (u : slice byte) (m : Message) : Message :=
  mkMessage u (Timestamp m) (Type_ m) (Logger m) (Severity m) (Payload m)
    (EnvVersion m) (Pid m) (Hostname m) (Fields m).

(** *** The reference JSON codec *)

(** The generated getters: the zero value for a nil attribute. *)
Definition GetType (m : Message) : string := default "" (Type_ m).
Definition GetLogger (m : Message) : string := default "" (Logger m).
Definition GetSeverity (m : Message) : Z := default 0%Z (Severity m).
Definition GetPayload (m : Message) : string := default "" (Payload m).
Definition GetEnvVersion (m : Message) : string := default "" (EnvVersion m).
Definition GetPid (m : Message) : Z := default 0%Z (Pid m).
Definition GetHostname (m : Message) : string := default "" (Hostname m).
Definition GetValueType (f : option Field) : Field_ValueType :=
  match f with
  | Some fd => default Field_STRING (ValueType fd)
  | None => Field_STRING
  end.

(** What encoding/json decodes a document to, as an [interface{}]: nil,
    bool, float64, string, [[]interface{}] or [map[string]interface{}].  The
    entries of a map are listed in the order a [range] visits them. *)
#[warnings="-register-all"]
Inductive Json : Type :=
| JNull
| JBool (b : bool)
| JNumber (x : float)
| JString (s : string)
| JArray (a : list Json)
| JObject (m : list (string * Json)).

(** The libraries the codec calls, taken as they are:
    [time.Unix(0, ns).Format(time.RFC3339Nano)]; [time.Parse] of that layout
    followed by [UnixNano] ([None] for a parse error); [json.Marshal] of a
    string and of a float64; the decoder behind [simplejson.NewJson];
    [uuid.Parse]; and the conversion [int(f)] of a float64. *)
Record Lib : Type := mkLib {
  time_Format : Z -> string;
  time_Parse : string -> option Z;
  Marshal_string : string -> string;
  Marshal_float : float -> string;
  Unmarshal : string -> Json + error;
  uuid_Parse : string -> slice byte;
  int_of_float : float -> Z
}.

(** go-simplejson's accessors on a decoded value. *)
Fixpoint assoc (key : string) (m : list (string * Json)) : option Json :=
  match m with
  | [] => None
  | (k, v) :: rest => if String.eqb k key then Some v else assoc key rest
  end.

Definition Get (j : Json) (key : string) : Json :=
  match j with
  | JObject m => default JNull (assoc key m)
  | _ => JNull
  end.

Definition String_ (j : Json) : string * bool :=
  match j with
  | JString s => (s, true)
  | _ => ("", false)
  end.

Definition MustString (j : Json) : string := fst (String_ j).

Definition Int_ (lib : Lib) (j : Json) : Z * bool :=
  match j with
  | JNumber x => (int_of_float lib x, true)
  | _ => ((-1)%Z, false)
  end.

Definition MustInt (lib : Lib) (j : Json) : Z :=
  let '(i, ok) := Int_ lib j in if ok then i else 0%Z.

Definition Map_ (j : Json) : list (string * Json) :=
  match j with
  | JObject m => m
  | _ => []
  end.

(** The conversion [int32(i)]. *)
Definition int32 (i : Z) : Z := ((i + 2 ^ 31) mod 2 ^ 32 - 2 ^ 31)%Z.

(** [%d] *)
Definition fmt_d (i : Z) : string := NilZero.string_of_int (Z.to_int i).

(** The double quote. *)
Definition dq : string := String.String (ascii_of_nat 34) EmptyString.
Definition quoted (s : string) : string := dq +:+ s +:+ dq.

(** [json.Marshal(v.Name)], of a [*string]. *)
Definition Marshal_name (lib : Lib) (n : option string) : string :=
  match n with
  | Some s => Marshal_string lib s
  | None => "null"
  end.

(** The body of the loop of [serialize_map]: [x] is set once an entry has
    been written.  Only the first value of a field is written, and only for
    STRING and DOUBLE fields. *)
Fixpoint serialize_entries (lib : Lib) (x : bool) (msg_fields : list (option Field))
    : call string :=
  match msg_fields with
  | [] => Ret ""
  | v :: rest =>
    let entry : call string :=
      match GetValueType v with
      | Field_STRING =>
        match v with
        | None => Panic
        | Some fd =>
          match items (ValueString fd) with
          | [] => Panic
          | s0 :: _ =>
            Ret (Marshal_name lib (Name fd) +:+ ": " +:+ Marshal_string lib s0)
          end
        end
      | Field_DOUBLE =>
        match v with
        | None => Panic
        | Some fd =>
          match items (ValueDouble fd) with
          | [] => Panic
          | x0 :: _ =>
            Ret (Marshal_name lib (Name fd) +:+ ": " +:+ Marshal_float lib x0)
          end
        end
      | _ => Ret "<something_else_here>"
      end in
    match entry with
    | Panic => Panic
    | Ret e =>
      match serialize_entries lib true rest with
      | Panic => Panic
      | Ret more => Ret ((if x then ", " else "") +:+ e +:+ more)
      end
    end
  end.

Definition serialize_map (lib : Lib) (msg_fields : list (option Field)) : call string :=
  match serialize_entries lib false msg_fields with
  | Panic => Panic
  | Ret body => Ret ("{" +:+ body +:+ "}")
  end.

(** [MarshalJSON] dereferences [self.Timestamp] and reads the other
    attributes through their getters; strings are written as they are. *)
Definition MarshalJSON (lib : Lib) (self : option Message) : call string :=
  match self with
  | None => Panic
  | Some m =>
    match Timestamp m with
    | None => Panic
    | Some ts =>
      let str_ts := time_Format lib ts in
      match serialize_map lib (items (Fields m)) with
      | Panic => Panic
      | Ret fields =>
        Ret (("{" +:+ quoted "timestamp" +:+ ": " +:+ quoted str_ts +:+
             ", " +:+ quoted "type" +:+ ": " +:+ quoted (GetType m) +:+
             ", " +:+ quoted "logger" +:+ ": " +:+ quoted (GetLogger m) +:+
             ", " +:+ quoted "severity" +:+ ": " +:+ fmt_d (GetSeverity m) +:+
             ", " +:+ quoted "payload" +:+ ": " +:+ quoted (GetPayload m) +:+
             ", " +:+ quoted "env_version" +:+ ": " +:+ quoted (GetEnvVersion m) +:+
             ", " +:+ quoted "metlog_pid" +:+ ": " +:+ fmt_d (GetPid m) +:+
             ", " +:+ quoted "metlog_hostname" +:+ ": " +:+ quoted (GetHostname m) +:+
             ", " +:+ quoted "fields" +:+ ": ") +:+ fields +:+ "}")
      end
    end
  end.

(** The reflection of a decoded value. *)
Definition reflect_json (v : Json) : Value :=
  match v with
  | JNull => of_nil
  | JBool b => of_bool b
  | JNumber x => of_float64 x
  | JString s => of_string s
  | JArray _ =>
    mkValue Slice Interface "[]interface {}" "" [] 0 0%float false
  | JObject _ =>
    mkValue Map Invalid "map[string]interface {}" "" [] 0 0%float false
  end.

(** [for _, x := range l { err := step(x); if err != nil { return err } }]
    on a state the steps rewrite. *)
Definition each {A St} (step : A -> St -> result St (option error))
    : list A -> St -> result St (option error) :=
  fix go l s :=
    match l with
    | [] => Returned None s
    | x :: l' =>
      match step x s with
      | Returned None s' => go l' s'
      | r => r
      end
    end.

(** The same with the index [i] of the element. *)
Definition each_indexed {A St} (step : nat -> A -> St -> result St (option error))
    : list A -> nat -> St -> result St (option error) :=
  fix go l i s :=
    match l with
    | [] => Returned None s
    | x :: l' =>
      match step i x s with
      | Returned None s' => go l' (S i) s'
      | r => r
      end
    end.

Definition is_scalar (v : Json) : bool :=
  match v with
  | JString _ | JNumber _ | JBool _ => true
  | _ => false
  end.

Definition child_key (path k : string) : string :=
  if Nat.eqb (String.length path) 0 then k else path +:+ "." +:+ k.

Definition child_index (path : string) (i : nat) : string :=
  path +:+ "." +:+ fmt_d (Z.of_nat i).

(** A field for a scalar (the error of [NewField] is dropped), then
    [msg.AddField]. *)
Definition add_scalar (v : Json) (msg : option Message) (path : string)
    : result (option Message) (option error) :=
  match NewField path (reflect_json v) Field_RAW with
  | Ret (f, _) => Returned None (AddField msg f)
  | Panic => Panicked msg
  end.

(** An array of scalars: a field for the first element, the others added
    to it, then [msg.AddField]. *)
Definition add_scalars (a0 : Json) (rest : list Json) (msg : option Message)
    (path : string) : result (option Message) (option error) :=
  match NewField path (reflect_json a0) Field_RAW with
  | Panic => Panicked msg
  | Ret (f, _) =>
    match each (fun v f => AddValue f (reflect_json v)) rest f with
    | Returned None f' => Returned None (AddField msg f')
    | Returned (Some err) _ => Returned (Some err) msg
    | Panicked _ => Panicked msg
    end
  end.

(** [flattenValue], with the bodies of [flattenArray] and [flattenMap] in
    its array and map cases. *)
Fixpoint flattenValue (v : Json) (msg : option Message) (path : string)
    {struct v} : result (option Message) (option error) :=
  match v with
  | JString _ | JNumber _ | JBool _ => add_scalar v msg path
  | JArray a =>
    match a with
    | [] => Returned None msg
    | a0 :: rest =>
      if is_scalar a0 then add_scalars a0 rest msg path
      else
        each_indexed
          (fun i x msg => flattenValue x msg (child_index path i)) a 0 msg
    end
  | JObject m =>
    each (fun kv msg => flattenValue (snd kv) msg (child_key path (fst kv))) m msg
  | JNull =>
    Returned (Some ("Path " +:+ path +:+ ", unsupported value type")) msg
  end.

Definition flattenMap (m : list (string * Json)) (msg : option Message)
    (path : string) : result (option Message) (option error) :=
  each (fun kv msg => flattenValue (snd kv) msg (child_key path (fst kv))) m msg.

Definition flattenArray (a : list Json) (msg : option Message) (path : string)
    : result (option Message) (option error) :=
  match a with
  | [] => Returned None msg
  | a0 :: rest =>
    if is_scalar a0 then add_scalars a0 rest msg path
    else
      each_indexed (fun i x msg => flattenValue x msg (child_index path i)) a 0 msg
  end.

Definition UnmarshalJSON (lib : Lib) (self : option Message) (msgBytes : string)
    : result (option Message) (option error) :=
  match Unmarshal lib msgBytes with
  | inr err => Returned (Some err) self
  | inl msgJson =>
    let uuidString := fst (String_ (Get msgJson "uuid")) in
    let self := SetUuid self (uuid_Parse lib uuidString) in
    let self := SetType self (MustString (Get msgJson "type")) in
    let timeStr := MustString (Get msgJson "timestamp") in
    match time_Parse lib timeStr with
    | None => Returned (Some "invalid Timestamp") self
    | Some t =>
      let self := SetTimestamp self t in
      let self := SetLogger self (MustString (Get msgJson "logger")) in
      let self := SetSeverity self (int32 (MustInt lib (Get msgJson "severity"))) in
      let self := SetPayload self (MustString (Get msgJson "payload")) in
      let self := SetEnvVersion self (MustString (Get msgJson "env_version")) in
      let self := SetPid self (int32 (fst (Int_ lib (Get msgJson "metlog_pid")))) in
      let self := SetHostname self (MustString (Get msgJson "metlog_hostname")) in
      flattenMap (Map_ (Get msgJson "fields")) self ""
    end
  end.

(** A message with every attribute set and one INTEGER field, built as the
    test suite builds its messages:
<<
    msg := &Message{}; msg.SetType("TEST"); ...
    f, _ := NewField("count", 5, Field_RAW); msg.AddField(f)
>> *)
Definition count_field : option Field :=
  match NewField "count" (of_int 5) Field_RAW with
  | Ret (f, _) => f
  | Panic => None
  end.

Definition counted_message : Message :=
  let m := Some empty_Message in
  let m := SetType m "TEST" in
  let m := SetTimestamp m 1360093193916612000%Z in
  let m := SetUuid m (of_list [x31; x32; x33; x34]) in
  let m := SetLogger m "GoSpec" in
  let m := SetSeverity m 6%Z in
  let m := SetPayload m "Test Payload" in
  let m := SetEnvVersion m "0.8" in
  let m := SetPid m 46543%Z in
  let m := SetHostname m "example.local" in
  default empty_Message (AddField m count_field).

(** One value of a field, of any of the five types, and the sequence of
    values a field holds for a type. *)
Inductive FieldValue : Type :=
| OfString (s : string)
| OfBytes (b : list byte)
| OfInteger (n : Z)
| OfDouble (x : float)
| OfBool (b : bool).

Definition values (t : Field_ValueType) (f : Field) : list FieldValue :=
  match t with
  | Field_STRING => OfString <$> items (ValueString f)
  | Field_BYTES => (fun b => OfBytes (items b)) <$> items (ValueBytes f)
  | Field_INTEGER => OfInteger <$> items (ValueInteger f)
  | Field_DOUBLE => OfDouble <$> items (ValueDouble f)
  | Field_BOOL => OfBool <$> items (ValueBool f)
  end.

(** What a value stores as, under a type. *)
Definition stored (t : Field_ValueType) (v : Value) : FieldValue :=
  match t with
  | Field_STRING => OfString (Value_String v)
  | Field_BYTES => OfBytes (as_bytes v)
  | Field_INTEGER => OfInteger (as_int v)
  | Field_DOUBLE => OfDouble (as_float v)
  | Field_BOOL => OfBool (as_bool v)
  end.

(** A BYTES field and a two-byte array, as in [var a [2]byte; f.AddValue(a)]. *)
Definition bytes_field : Field := NewFieldInit "foo" Field_BYTES Field_RAW.
Definition ab_array : Value := of_byte_array [x61; x62].

(** *** What UnmarshalJSON can build *)

Section Json_induction.
Variable P : Json -> Prop.
Hypothesis P_null : P JNull.
Hypothesis P_bool : forall b, P (JBool b).
Hypothesis P_number : forall x, P (JNumber x).
Hypothesis P_string : forall s, P (JString s).
Hypothesis P_array : forall a, Forall P a -> P (JArray a).
Hypothesis P_object : forall m, Forall (fun kv => P (snd kv)) m -> P (JObject m).

Fixpoint Json_induction (v : Json) : P v :=
  match v with
  | JNull => P_null
  | JBool b => P_bool b
  | JNumber x => P_number x
  | JString s => P_string s
  | JArray a =>
    P_array a
      ((fix all (l : list Json) : Forall P l :=
          match l with
          | [] => List.Forall_nil P
          | x :: l' => @List.Forall_cons _ P x l' (Json_induction x) (all l')
          end) a)
  | JObject m =>
    P_object m
      ((fix all (l : list (string * Json)) : Forall (fun kv => P (snd kv)) l :=
          match l with
          | [] => List.Forall_nil _
          | kv :: l' => @List.Forall_cons _ _ kv l' (Json_induction (snd kv)) (all l')
          end) m)
  end.
End Json_induction.

(** A field of one of the types a decoded JSON scalar has. *)
Definition scalar_field (f : option Field) : Prop :=
  exists fd, f = Some fd /\
    (ValueType fd = Some Field_STRING \/ ValueType fd = Some Field_DOUBLE \/
     ValueType fd = Some Field_BOOL).

(** A message, not nil, all of whose fields are of those types. *)
Definition scalar_fields_only (msg : option Message) : Prop :=
  exists m, msg = Some m /\ Forall scalar_field (items (Fields m)).

Ltac stored_at_end :=
  eexists; split; [reflexivity|]; simpl;
  repeat split; try reflexivity; try assumption;
  [ rewrite grow_insert, fmap_app; cbn [fmap list_fmap];
    rewrite ?copy_of_list; reflexivity
  | let u := fresh "u" in let Hu := fresh "Hu" in
    intros u Hu; destruct u; try reflexivity; congruence ].

Lemma getValueType_kinds (v : Value) (t : Field_ValueType) :
  getValueType v = Ret (t, None) ->
  match t with
  | Field_STRING => kind v = String \/ (kind v = Array \/ kind v = Slice) /\ elem_kind v <> Uint8
  | Field_BYTES => (kind v = Array \/ kind v = Slice) /\ elem_kind v = Uint8
  | Field_INTEGER => is_int_kind (kind v) = true
  | Field_DOUBLE => is_float_kind (kind v) = true
  | Field_BOOL => kind v = Bool
  end.
Proof.
  unfold getValueType, Value_Type. intros Hv.
  destruct (kind v) eqn:K; simpl in *;
    repeat case_decide; inversion Hv; subst; simpl; auto; try congruence.
Qed.



(** C1 (as the code has it for an array of bytes): [getValueType] gives an
    array of bytes the type BYTES, so a BYTES field passes the type check;
    [AddValue] then grows [ValueBytes] by one slot and calls [v.Bytes()],
    which panics on an array.  The call neither returns nil nor stores the
    value: the field is left with an empty value in the new slot. *)
Theorem AddValue_byte_array_panics :
  ValueType bytes_field = Some Field_BYTES /\
  getValueType ab_array = Ret (Field_BYTES, None) /\
  AddValue (Some bytes_field) ab_array
  = Panicked (Some (with_ValueBytes (mkSlice [nil_slice] [] true) bytes_field)).
Proof. repeat split. Qed.

(** C10: the mutation API is total on nil receivers.  Every setter and
    [AddField] called on a nil [*Message] returns with the pointer still nil
    and nothing written; [AddValue] on a nil [*Field] returns an error,
    whatever the value, and does not panic. *)
Theorem nil_receiver_is_noop :
  (forall v, SetUuid None v = None) /\
  (forall v, SetTimestamp None v = None) /\
  (forall v, SetType None v = None) /\
  (forall v, SetLogger None v = None) /\
  (forall v, SetSeverity None v = None) /\
  (forall v, SetPayload None v = None) /\
  (forall v, SetEnvVersion None v = None) /\
  (forall v, SetPid None v = None) /\
  (forall v, SetHostname None v = None) /\
  (forall f, AddField None f = None) /\
  (forall v, AddValue None v = Returned (Some "Field is nil") None).
Proof. repeat split. Qed.

(** *** The codec on a message with an INTEGER field *)

Lemma all2_length {A} (eqb : A -> A -> bool) (a b : list A) :
  all2 eqb a b = true -> length a = length b.
Proof.
  revert b. induction a as [|x a IH]; intros [|y b]; simpl; try discriminate.
  - reflexivity.
  - intros H. apply andb_true_iff in H as [_ H]. f_equal. apply IH, H.
Qed.

Lemma each_invariant {A St} (P : St -> Prop)
    (step : A -> St -> result St (option error)) (l : list A) :
  Forall (fun x => forall s, P s -> P (state_of (step x s))) l ->
  forall s, P s -> P (state_of (each step l s)).
Proof.
  induction 1 as [|x l Hx Hl IH]; intros s Hs; simpl; [exact Hs|].
  specialize (Hx s Hs). destruct (step x s) as [[e|] s'|s']; simpl in *; auto.
Qed.

Lemma each_indexed_invariant {A St} (P : St -> Prop)
    (step : nat -> A -> St -> result St (option error)) (l : list A) :
  Forall (fun x => forall i s, P s -> P (state_of (step i x s))) l ->
  forall i s, P s -> P (state_of (each_indexed step l i s)).
Proof.
  induction 1 as [|x l Hx Hl IH]; intros i s Hs; simpl; [exact Hs|].
  specialize (Hx i s Hs). destruct (step i x s) as [[e|] s'|s']; simpl in *; auto.
Qed.

(** [AddValue] never changes the declared type of the field. *)
Lemma AddValue_keeps_type (fd : Field) (v : Value) :
  exists fd', state_of (AddValue (Some fd) v) = Some fd' /\
    ValueType fd' = ValueType fd.
Proof.
  unfold AddValue.
  destruct (getValueType v) as [[t [err|]]|]; simpl; eauto.
  destruct (ValueType fd) as [ft|] eqn:E; simpl; eauto.
  destruct (bool_decide (t = ft)); simpl; eauto.
  destruct ft; simpl;
    repeat match goal with
           | |- context [match ?c with Ret _ => _ | Panic => _ end] => destruct c
           end; simpl; eauto.
Qed.

Lemma NewField_scalar (path : string) (v : Json) :
  is_scalar v = true ->
  exists fd, NewField path (reflect_json v) Field_RAW = Ret (Some fd, None) /\
    scalar_field (Some fd).
Proof.
  destruct v; try discriminate; intros _; eexists; (split; [reflexivity|]);
    eexists; (split; [reflexivity|]); simpl; auto.
Qed.

Lemma AddField_fields (m : Message) (f : option Field) :
  exists m', AddField (Some m) f = Some m' /\
    items (Fields m') = items (Fields m) ++ [f].
Proof.
  eexists. split; [reflexivity|]. simpl. apply grow_insert.
Qed.

Lemma AddField_scalar (msg : option Message) (f : option Field) :
  scalar_fields_only msg -> scalar_field f ->
  scalar_fields_only (AddField msg f).
Proof.
  intros (m & -> & H) Hf.
  destruct (AddField_fields m f) as (m' & E & I).
  exists m'. split; [exact E|]. rewrite I. apply Forall_app. auto.
Qed.

Lemma add_scalar_invariant (v : Json) (msg : option Message) (path : string) :
  is_scalar v = true -> scalar_fields_only msg ->
  scalar_fields_only (state_of (add_scalar v msg path)).
Proof.
  intros Hv Hm. unfold add_scalar.
  destruct (NewField_scalar path v Hv) as (fd & -> & Hf). simpl.
  apply AddField_scalar; assumption.
Qed.

Lemma add_scalars_invariant (a0 : Json) (rest : list Json) (msg : option Message)
    (path : string) :
  is_scalar a0 = true -> scalar_fields_only msg ->
  scalar_fields_only (state_of (add_scalars a0 rest msg path)).
Proof.
  intros Hv Hm. unfold add_scalars.
  destruct (NewField_scalar path a0 Hv) as (fd & -> & (fd0 & E0 & T0)).
  injection E0 as <-.
  assert (K : exists fd', state_of (each (fun v f => AddValue f (reflect_json v))
                                       rest (Some fd)) = Some fd' /\
                          ValueType fd' = ValueType fd).
  { apply (each_invariant
             (fun f => exists fd', f = Some fd' /\ ValueType fd' = ValueType fd)).
    - apply Forall_forall. intros x _ s (fd1 & -> & T1).
      destruct (AddValue_keeps_type fd1 (reflect_json x)) as (fd2 & E2 & T2).
      exists fd2. split; [exact E2 | congruence].
    - exists fd. split; reflexivity. }
  destruct K as (fd' & E & T).
  destruct (each _ rest (Some fd)) as [[e|] f'|f']; simpl in *; try exact Hm.
  subst f'. apply AddField_scalar; [exact Hm|].
  exists fd'. split; [reflexivity|]. rewrite T. exact T0.
Qed.

(** Whatever the document and however the walk ends (nil, an error or a
    panic), [flattenValue] only ever adds STRING, DOUBLE and BOOL fields. *)
Lemma flattenValue_invariant (v : Json) :
  forall (msg : option Message) (path : string),
    scalar_fields_only msg ->
    scalar_fields_only (state_of (flattenValue v msg path)).
Proof.
  apply (Json_induction
           (fun v => forall msg path, scalar_fields_only msg ->
                     scalar_fields_only (state_of (flattenValue v msg path)))).
  - intros msg path Hm. exact Hm.
  - intros b msg path Hm. apply add_scalar_invariant; [reflexivity | exact Hm].
  - intros x msg path Hm. apply add_scalar_invariant; [reflexivity | exact Hm].
  - intros s msg path Hm. apply add_scalar_invariant; [reflexivity | exact Hm].
  - intros a IH msg path Hm. simpl.
    destruct a as [|a0 rest]; [exact Hm|].
    destruct (is_scalar a0) eqn:Sa.
    + apply add_scalars_invariant; assumption.
    + apply (each_indexed_invariant scalar_fields_only); [|exact Hm].
      eapply Forall_impl; [exact IH|]. simpl. intros x Hx i s0 Hs. apply Hx, Hs.
  - intros m IH msg path Hm. simpl.
    apply (each_invariant scalar_fields_only); [|exact Hm].
    eapply Forall_impl; [exact IH|]. simpl. intros kv Hx s0 Hs. apply Hx, Hs.
Qed.

Lemma UnmarshalJSON_invariant (lib : Lib) (msgBytes : string) :
  scalar_fields_only (state_of (UnmarshalJSON lib (Some empty_Message) msgBytes)).
Proof.
  assert (E : scalar_fields_only (Some empty_Message))
    by (eexists; split; [reflexivity|constructor]).
  unfold UnmarshalJSON. destruct (Unmarshal lib msgBytes) as [msgJson|err]; [|exact E].
  destruct (time_Parse lib _) as [t|]; simpl.
  - unfold flattenMap. apply (each_invariant scalar_fields_only).
    + apply Forall_forall. intros kv _ s0 Hs. apply flattenValue_invariant, Hs.
    + eexists; split; [reflexivity|constructor].
  - eexists; split; [reflexivity|constructor].
Qed.

(** C8 (as the code has it for a message with an INTEGER field):
    [serialize_map] has cases for STRING and DOUBLE fields only and writes
    a placeholder for any other, so [MarshalJSON] does not produce a JSON
    document; and [UnmarshalJSON] builds its fields from decoded scalars,
    which are strings, float64s and bools.  Whatever the libraries do and
    whatever bytes it is given, the message [UnmarshalJSON] leaves (on
    return or on a panic) differs from the original under [Equals], also
    with the identifiers made the same. *)
Theorem JSON_round_trip_loses_integer_field (lib : Lib) :
  serialize_map lib (items (Fields counted_message))
  = Ret "{<something_else_here>}" /\
  (exists head,
     MarshalJSON lib (Some counted_message)
     = Ret (head +:+ "{<something_else_here>}" +:+ "}")) /\
  forall msgBytes : string,
    exists m',
      state_of (UnmarshalJSON lib (Some empty_Message) msgBytes) = Some m' /\
      Equals (with_Uuid (Uuid m') counted_message) m' = false.
Proof.
  split; [reflexivity|]. split; [eexists; reflexivity|].
  intros msgBytes.
  destruct (UnmarshalJSON_invariant lib msgBytes) as (m' & E & H).
  exists m'. split; [exact E|].
  unfold Equals. rewrite !andb_false_iff. right.
  unfold slice_DeepEqual. rewrite andb_false_iff. right.
  destruct (items (Fields m')) as [|f [|g l]]; [reflexivity| |].
  - apply Forall_inv in H. destruct H as (fd & -> & T).
    change (Field_DeepEqual (default (NewFieldInit "" Field_STRING 0%Z) count_field) fd
            && true = false).
    rewrite andb_true_r. unfold Field_DeepEqual.
    rewrite !andb_false_iff. do 7 left. right.
    destruct T as [T|[T|T]]; rewrite T; reflexivity.
  - apply not_true_is_false. intros A. apply all2_length in A.
    vm_compute in A. discriminate A.
Qed.

End Message.

(** ** pipeline.go: packs, configuration and the dispatcher *)

Module Pipeline.
Import Go.

(** Control channel event types. *)
Definition RELOAD : string := "reload".
Definition STOP : string := "stop".

(** Interface values ([Decoder], [Filter], [PluginGlobal]) and channels are
    references: a plugin object or a channel is named by its identity, and
    what a plugin does when called is given by the environment below. *)
Definition DecoderPlugin : Type := nat.
Definition FilterPlugin : Type := nat.
Definition PluginGlobal : Type := nat.
Definition Chan : Type := nat.

(** [PluginWrapper]: the name and the shared global (nil when the plugin
    kind has none).  The creators are not used by the code embedded here. *)
Record PluginWrapper : Type := mkWrapper {
  name : string;
  global : option PluginGlobal
}.

(** [FilterChain]: an ordered list of filter names and the outputs to deliver to. *)
Module Chain.
Record t : Type := mk { Filters : list string; Outputs : list string }.
End Chain.

(** [PipelineConfig], as the dispatcher uses it.  It is read-only once the
    pipeline runs.  [Lookup] stands for [config.Lookup.LocateChain]. *)
Module Cfg.
Record t : Type := mk {
  DefaultDecoder : string;
  DefaultFilterChain : string;
  PoolSize : nat;
  Inputs : gmap string PluginWrapper;
  Decoders : gmap string PluginWrapper;
  Filters : gmap string PluginWrapper;
  Outputs : gmap string PluginWrapper;
  FilterChains : gmap string Chain.t;
  OutputRunners : gmap string Chan;
  Lookup : Message.Message -> string * bool
}.
End Cfg.

(** A [map[string]bool] object: its identity and its entries.  Deleting
    entries keeps the identity; a map literal allocates a new one. *)
Record NameSet : Type := mkNameSet {
  addr : nat;
  entries : gmap string bool
}.

Record PipelinePack : Type := mkPack {
  MsgBytes : slice byte;
  Message : Message.Message;
  Config : Cfg.t;
  Decoder : string;
  Decoders : gmap string DecoderPlugin;
  Filters : gmap string FilterPlugin;
  OutputChans : gmap string Chan;
  Decoded : bool;
  Blocked : bool;
  FilterChain : string;
  ChainCount : Z;
  OutputNames : NameSet
}.

Definition with_Decoded (b : bool) (p : PipelinePack) : PipelinePack :=
  mkPack (MsgBytes p) (Message p) (Config p) (Decoder p) (Decoders p)
    (Filters p) (OutputChans p) b (Blocked p) (FilterChain p) (ChainCount p)
    (OutputNames p).
Definition with_Blocked (b : bool) (p : PipelinePack) : PipelinePack :=
  mkPack (MsgBytes p) (Message p) (Config p) (Decoder p) (Decoders p)
    (Filters p) (OutputChans p) (Decoded p) b (FilterChain p) (ChainCount p)
    (OutputNames p).
Definition with_FilterChain (c : string) (p : PipelinePack) : PipelinePack :=
  mkPack (MsgBytes p) (Message p) (Config p) (Decoder p) (Decoders p)
    (Filters p) (OutputChans p) (Decoded p) (Blocked p) c (ChainCount p)
    (OutputNames p).
Definition with_OutputNames (s : NameSet) (p : PipelinePack) : PipelinePack :=
  mkPack (MsgBytes p) (Message p) (Config p) (Decoder p) (Decoders p)
    (Filters p) (OutputChans p) (Decoded p) (Blocked p) (FilterChain p)
    (ChainCount p) s.

(** Lines the dispatcher logs. *)
Inductive LogLine : Type :=
| DecoderMissing (decoderName : string)
| DecodeError (decoderName : string) (err : error)
| ChainMissing (filterChainName : string)
| FilterPanic (filterName : string)
| OutputMissing (outputName : string)
| PostError (err : error)
| EventPanic (eventType : string).

(** What the dispatcher does that the outside can see, in order. *)
Inductive Event : Type :=
| EvLog (l : LogLine)
| EvDecode (d : DecoderPlugin)
| EvFilterMsg (filterName : string) (f : FilterPlugin)
| EvSend (c : Chan)
| EvPost (eventType : string)
| EvEvent (g : PluginGlobal) (eventType : string).

(** The order in which [range] visits a map is not specified: any
    enumeration of the entries. *)
Record MapOrder : Type := mkOrder {
  range : forall V : Type, gmap string V -> list (string * V);
  range_perm : forall (V : Type) (m : gmap string V), range V m ≡ₚ map_to_list m
}.
Arguments range _ {V} _.

(** User code, over a state [PS] private to the plugins.  A call gets the
    pack by reference: it returns or panics having possibly rewritten it.
    [Post] is go-notify's [Post]. *)
Record Env (PS : Type) : Type := mkEnv {
  order : MapOrder;
  Decode : DecoderPlugin -> PipelinePack -> PS -> result (PipelinePack * PS) (option error);
  FilterMsg : FilterPlugin -> PipelinePack -> PS -> result (PipelinePack * PS) unit;
  Event_ : PluginGlobal -> string -> PS -> result PS unit;
  Post : string -> PS -> option error * PS
}.
Arguments order {PS} _.
Arguments Decode {PS} _.
Arguments FilterMsg {PS} _.
Arguments Event_ {PS} _.
Arguments Post {PS} _.

(** The dispatcher's state: the pack it holds, the plugins' state, the
    trace so far and the next free map identity. *)
Record World (PS : Type) : Type := mkWorld {
  pack : PipelinePack;
  plugins : PS;
  trace : list Event;
  next_addr : nat
}.
Arguments mkWorld {PS} pack plugins trace next_addr.
Arguments pack {PS} _.
Arguments plugins {PS} _.
Arguments trace {PS} _.
Arguments next_addr {PS} _.

(** *** A small configuration with well-behaved and buggy plugins

    In the way of the test suite's [BuggyPlugin]: decoder 0 decodes, 1
    reports an error, any other panics; filter 0 passes the pack on, 1 blocks
    it, any other panics; the global 0 panics on every event.  The plugins'
    state counts the calls. *)

Definition any_order : MapOrder :=
  mkOrder (fun V m => map_to_list m) (fun V m => Permutation_refl (map_to_list m)).

Definition demo_Decode (d : DecoderPlugin) (p : PipelinePack) (calls : nat)
    : result (PipelinePack * nat) (option error) :=
  match d with
  | 0 => Returned None (p, S calls)
  | 1 => Returned (Some "bad input") (p, S calls)
  | _ => Panicked (p, S calls)
  end.

Definition demo_FilterMsg (f : FilterPlugin) (p : PipelinePack) (calls : nat)
    : result (PipelinePack * nat) unit :=
  match f with
  | 0 => Returned tt (p, S calls)
  | 1 => Returned tt (with_Blocked true p, S calls)
  | _ => Panicked (p, S calls)
  end.

Definition demo_Event (g : PluginGlobal) (eventType : string) (calls : nat)
    : result nat unit :=
  match g with
  | 0 => Panicked (S calls)
  | _ => Returned tt (S calls)
  end.

Definition demo_env : Env nat :=
  mkEnv nat any_order demo_Decode demo_FilterMsg demo_Event
    (fun _ calls => (None, calls)).

Definition demo_config : Cfg.t :=
  Cfg.mk "json" "default" 2
    {[ "udp" := mkWrapper "udp" (Some 7) ]}
    {[ "json" := mkWrapper "json" None ]}
    {[ "counter" := mkWrapper "counter" (Some 1);
       "buggy" := mkWrapper "buggy" (Some 0);
       "plain" := mkWrapper "plain" None ]}
    {[ "log" := mkWrapper "log" (Some 2) ]}
    {[ "default" := Chain.mk ["pass"] ["log"; "file"];
       "blocking" := Chain.mk ["pass"; "block"; "pass"] ["log"];
       "panicky" := Chain.mk ["buggy"; "pass"] ["log"];
       "nowhere" := Chain.mk ["pass"] ["file"] ]}
    {[ "log" := 100 ]}
    (fun _ => ("", false)).

(** A pack as [NewPipelinePack] builds it and an input fills it: the
    decoder name and the filter chain chosen by the input. *)
Definition demo_pack (decoderName : string) (decoded : bool) (chain : string)
    : PipelinePack :=
  mkPack (make x00 4 8) Message.empty_Message demo_config decoderName
    {[ "json" := 0; "bad" := 1; "buggy" := 2 ]}
    {[ "pass" := 0; "block" := 1; "buggy" := 2 ]}
    {[ "log" := 100 ]}
    decoded false chain 0 (mkNameSet 0 ∅).

Definition demo_world (decoderName : string) (decoded : bool) (chain : string)
    : World nat :=
  mkWorld (demo_pack decoderName decoded chain) 0 [] 1.

Section Dispatcher.
Context {PS : Type} (env : Env PS).

Definition M (A : Type) : Type := World PS -> result (World PS) A.

Definition ret {A} (a : A) : M A := fun w => Returned a w.

Definition bind {A B} (m : M A) (k : A -> M B) : M B :=
  fun w =>
    match m w with
    | Returned a w' => k a w'
    | Panicked w' => Panicked w'
    end.

Definition panic {A} : M A := fun w => Panicked w.

(** [defer func() { if r := recover(); r != nil { handler } }()] around [body]. *)
Definition recovering {A} (body : M A) (handler : M A) : M A :=
  fun w =>
    match body w with
    | Returned a w' => Returned a w'
    | Panicked w' => handler w'
    end.

Definition get_pack : M PipelinePack := fun w => Returned (pack w) w.

Definition modify_pack (f : PipelinePack -> PipelinePack) : M unit :=
  fun w => Returned tt (mkWorld (f (pack w)) (plugins w) (trace w) (next_addr w)).

Definition emit (e : Event) : M unit :=
  fun w => Returned tt (mkWorld (pack w) (plugins w) (trace w ++ [e]) (next_addr w)).

Definition log (l : LogLine) : M unit := emit (EvLog l).

(** [outChan <- pack] *)
Definition send (c : Chan) : M unit := emit (EvSend c).

Notation "x <- m ;; k" := (bind m (fun x => k))
  (at level 100, m at next level, k at level 200, right associativity).
Notation "m ;; k" := (bind m (fun _ => k))
  (at level 100, k at level 200, right associativity).

(** Calls into user code: the call is traced, the plugin runs on the pack
    and on the plugins' state, and a panic unwinds with what it wrote. *)
Definition call_Decode (decoder : DecoderPlugin) : M (option error) :=
  fun w =>
    let tr := trace w ++ [EvDecode decoder] in
    match Decode env decoder (pack w) (plugins w) with
    | Returned err (p, s) => Returned err (mkWorld p s tr (next_addr w))
    | Panicked (p, s) => Panicked (mkWorld p s tr (next_addr w))
    end.

(** [filter.FilterMsg(pack)]; calling a method of a nil interface panics. *)
Definition call_FilterMsg (filterName : string) (filter : option FilterPlugin)
    : M unit :=
  match filter with
  | None => panic
  | Some f =>
    fun w =>
      let tr := trace w ++ [EvFilterMsg filterName f] in
      match FilterMsg env f (pack w) (plugins w) with
      | Returned _ (p, s) => Returned tt (mkWorld p s tr (next_addr w))
      | Panicked (p, s) => Panicked (mkWorld p s tr (next_addr w))
      end
  end.

(** [global.Event(eventType)] *)
Definition call_Event (g : option PluginGlobal) (eventType : string) : M unit :=
  match g with
  | None => panic
  | Some g =>
    fun w =>
      let tr := trace w ++ [EvEvent g eventType] in
      match Event_ env g eventType (plugins w) with
      | Returned _ s => Returned tt (mkWorld (pack w) s tr (next_addr w))
      | Panicked s => Panicked (mkWorld (pack w) s tr (next_addr w))
      end
  end.

(** [notify.Post(eventType, nil)] *)
Definition post (eventType : string) : M (option error) :=
  fun w =>
    let '(err, s) := Post env eventType (plugins w) in
    Returned err (mkWorld (pack w) s (trace w ++ [EvPost eventType]) (next_addr w)).

(** [map[string]bool{}] *)
Definition new_NameSet : M NameSet :=
  fun w =>
    Returned (mkNameSet (next_addr w) ∅)
      (mkWorld (pack w) (plugins w) (trace w) (S (next_addr w))).

(** [for outputName, _ := range m { delete(m, outputName) }] *)
Definition delete_all (m : gmap string bool) : gmap string bool :=
  foldl (fun acc kv => delete (fst kv) acc) m (range (order env) m).

Definition Zero (self : PipelinePack) : PipelinePack :=
  mkPack (full (MsgBytes self)) (Message self) (Config self)
    (Cfg.DefaultDecoder (Config self)) (Decoders self) (Filters self)
    (OutputChans self) false false (Cfg.DefaultFilterChain (Config self))
    (ChainCount self)
    (mkNameSet (addr (OutputNames self)) (delete_all (entries (OutputNames self)))).

Definition safe_filter (filterName : string) (filter : option FilterPlugin)
    : M unit :=
  recovering (call_FilterMsg filterName filter)
    (log (FilterPanic filterName) ;; modify_pack (with_Blocked true)).

(** [pipelinePack.OutputNames[outputName] = true] for each output of the chain. *)
Fixpoint seed_outputs (outputs : list string) : M unit :=
  match outputs with
  | [] => ret tt
  | outputName :: rest =>
    modify_pack (fun p =>
      with_OutputNames
        (mkNameSet (addr (OutputNames p)) (<[outputName := true]> (entries (OutputNames p)))) p) ;;
    seed_outputs rest
  end.

(** The loop over [filterChain.Filters]; its [return] ends [filterProcessor]. *)
Fixpoint run_filters (filters : list string) : M unit :=
  match filters with
  | [] => ret tt
  | filterName :: rest =>
    p <- get_pack ;;
    safe_filter filterName (Filters p !! filterName) ;;
    p <- get_pack ;;
    if Blocked p then ret tt else run_filters rest
  end.

Definition filterProcessor : M unit :=
  fresh <- new_NameSet ;;
  modify_pack (with_OutputNames fresh) ;;
  pipelinePack <- get_pack ;;
  let config := Config pipelinePack in
  let '(located, ok) := Cfg.Lookup config (Message pipelinePack) in
  (if ok then modify_pack (with_FilterChain located) else ret tt) ;;
  let filterChainName := if ok then located else FilterChain pipelinePack in
  match Cfg.FilterChains config !! filterChainName with
  | None => log (ChainMissing filterChainName)
  | Some filterChain =>
    seed_outputs (Chain.Outputs filterChain) ;;
    run_filters (Chain.Filters filterChain)
  end.

Definition safe_plugin_global_event (wrapper : PluginWrapper) (eventType : string)
    : M unit :=
  recovering (call_Event (global wrapper) eventType) (log (EventPanic eventType)).

Fixpoint notify_globals (wrappers : list (string * PluginWrapper))
    (eventType : string) : M unit :=
  match wrappers with
  | [] => ret tt
  | (_, wrapper) :: rest =>
    (match global wrapper with
     | Some _ => safe_plugin_global_event wrapper eventType
     | None => ret tt
     end) ;;
    notify_globals rest eventType
  end.

Definition BroadcastEvent (config : Cfg.t) (eventType : string) : M unit :=
  err <- post eventType ;;
  (match err with
   | Some e => log (PostError e)
   | None => ret tt
   end) ;;
  notify_globals (range (order env) (Cfg.Filters config)) eventType ;;
  notify_globals (range (order env) (Cfg.Outputs config)) eventType.

(** Declared in pipeline.go; [pipeline] does not call it. *)
Definition safe_decode (decoder : DecoderPlugin) : M (option error) :=
  recovering (call_Decode decoder) (ret (Some "Error running decoder on pack.")).

(** The delivery loop of [pipeline]: [i] counts the sends. *)
Fixpoint deliver (names : list (string * bool)) (i : nat) : M nat :=
  match names with
  | [] => ret i
  | (outputName, use) :: rest =>
    if negb use then deliver rest i
    else
      p <- get_pack ;;
      match OutputChans p !! outputName with
      | None => log (OutputMissing outputName) ;; deliver rest i
      | Some outChan => send outChan ;; deliver rest (i + 1)
      end
  end.

(** [pipeline] from "Run message through the appropriate filters" on. *)
Definition filter_and_deliver : M bool :=
  filterProcessor ;;
  p <- get_pack ;;
  if Blocked p then ret true
  else
    i <- deliver (range (order env) (entries (OutputNames p))) 0 ;;
    ret (Nat.eqb i 0).

(** Main pipeline function: the result is [recycle]. *)
Definition pipeline : M bool :=
  p <- get_pack ;;
  if negb (Decoded p) then
    let decoderName := Decoder p in
    match Decoders p !! decoderName with
    | None => log (DecoderMissing decoderName) ;; ret true
    | Some decoder =>
      err <- call_Decode decoder ;;
      match err with
      | Some e => log (DecodeError decoderName e) ;; ret true
      | None => modify_pack (with_Decoded true) ;; filter_and_deliver
      end
    end
  else filter_and_deliver.

(** The [case pack = <-dataChan] arm of the loop in [Run], for the pack the
    world holds. *)
Definition Run_dataChan (recycleChan : Chan) : M unit :=
  recycle <- pipeline ;;
  if recycle then modify_pack Zero ;; send recycleChan else ret tt.

(** *** What the trace of a run says *)

(** The channels a pack is sent on. *)
Definition sends (evs : list Event) : list Chan :=
  omap (fun e => match e with EvSend c => Some c | _ => None end) evs.

(** The output names logged as missing. *)
Definition missing_logged (evs : list Event) : list string :=
  omap (fun e => match e with EvLog (OutputMissing n) => Some n | _ => None end) evs.

(** The [Event] calls made on plugin globals. *)
Definition notified (evs : list Event) : list (PluginGlobal * string) :=
  omap (fun e => match e with EvEvent g t => Some (g, t) | _ => None end) evs.

(** The filters invoked. *)
Definition filtered (evs : list Event) : list string :=
  omap (fun e => match e with EvFilterMsg n _ => Some n | _ => None end) evs.

(** Of the entries of an output-name set, those in use (mapped to true), in
    the order given: the channels of the names that have one, and the names
    that have none. *)
Definition targets (p : PipelinePack) (names : list (string * bool)) : list Chan :=
  omap (fun nu : string * bool =>
          if snd nu then OutputChans p !! fst nu else None) names.

Definition orphans (p : PipelinePack) (names : list (string * bool)) : list string :=
  omap (fun nu : string * bool =>
          if snd nu then
            match OutputChans p !! fst nu with
            | None => Some (fst nu)
            | Some _ => None
            end
          else None) names.

(** The globals of a list of wrappers, nil ones left out. *)
Definition globals (wrappers : list (string * PluginWrapper)) : list PluginGlobal :=
  omap (fun nw : string * PluginWrapper => global (snd nw)) wrappers.

Definition add_trace (evs : list Event) (w : World PS) : World PS :=
  mkWorld (pack w) (plugins w) (trace w ++ evs) (next_addr w).

(** The events of the fan-out stage, and those of a broadcast. *)
Definition is_delivery (e : Event) : Prop :=
  match e with
  | EvSend _ => True
  | EvLog (OutputMissing _) => True
  | _ => False
  end.

Definition is_broadcast (e : Event) : Prop :=
  match e with
  | EvEvent _ _ => True
  | EvLog (EventPanic _) => True
  | EvLog (PostError _) => True
  | _ => False
  end.

Definition tag (eventType : string) (g : PluginGlobal) : PluginGlobal * string :=
  (g, eventType).

Ltac run_M :=
  unfold Run_dataChan, pipeline, filter_and_deliver, safe_decode, recovering,
    call_Decode, bind, ret, get_pack, modify_pack, log, send, emit, panic;
  simpl.

(** *** PipelinePack.Zero *)

Lemma foldl_delete_None (l : list (string * bool)) (m : gmap string bool) (k : string) :
  k ∈ l.*1 \/ m !! k = None ->
  foldl (fun acc kv => delete (fst kv) acc) m l !! k = None.
Proof.
  revert m. induction l as [|a l IH]; intros m H; simpl.
  - destruct H as [H|H]; [inversion H | exact H].
  - apply IH. destruct H as [H|H].
    + simpl in H. apply elem_of_cons in H as [->|H]; [right | left; exact H].
      apply lookup_delete_eq.
    + right. rewrite lookup_delete_None. right. exact H.
Qed.

Lemma delete_all_empty (m : gmap string bool) : delete_all m = ∅.
Proof.
  apply map_eq. intros k. rewrite lookup_empty.
  unfold delete_all. apply foldl_delete_None.
  destruct (m !! k) as [b|] eqn:E; [left | right; reflexivity].
  apply list_elem_of_fmap. exists (k, b). split; [reflexivity|].
  rewrite (range_perm (order env)). apply elem_of_map_to_list. exact E.
Qed.

Lemma full_items {A} (s : slice A) :
  items (full s) = items s ++ spare s /\ spare (full s) = [].
Proof.
  unfold full, reslice, cap; simpl. split.
  - apply take_ge. rewrite length_app. lia.
  - apply drop_ge. rewrite length_app. lia.
Qed.

(** C5: [Zero] re-extends [MsgBytes] to its full capacity, resets [Decoder]
    and [FilterChain] to the configuration's defaults, clears [Decoded] and
    [Blocked], and empties the [OutputNames] map in place (the map object is
    the same, it has no entry left).  The message, the configuration and
    the [Decoders], [Filters] and [OutputChans] maps are as before. *)
Theorem Zero_resets_pack (self : PipelinePack) :
  items (MsgBytes (Zero self)) = items (MsgBytes self) ++ spare (MsgBytes self) /\
  len (MsgBytes (Zero self)) = cap (MsgBytes self) /\
  Decoder (Zero self) = Cfg.DefaultDecoder (Config self) /\
  Decoded (Zero self) = false /\
  Blocked (Zero self) = false /\
  FilterChain (Zero self) = Cfg.DefaultFilterChain (Config self) /\
  addr (OutputNames (Zero self)) = addr (OutputNames self) /\
  entries (OutputNames (Zero self)) = ∅ /\
  Message (Zero self) = Message self /\
  Config (Zero self) = Config self /\
  Decoders (Zero self) = Decoders self /\
  Filters (Zero self) = Filters self /\
  OutputChans (Zero self) = OutputChans self.
Proof.
  destruct (full_items (MsgBytes self)) as [Hi Hs].
  unfold Zero; simpl. repeat split; try reflexivity.
  - exact Hi.
  - unfold len, cap. rewrite Hi, length_app. reflexivity.
  - apply delete_all_empty.
Qed.

(** *** The decode stage *)


(** C2 (as the code has it): [pipeline] calls [decoder.Decode] itself, not
    through [safe_decode].  A panic in [Decode] is not captured: it unwinds
    [pipeline] and the loop of [Run], which has no handler, so nothing is
    logged, the pack is not recycled and the dispatcher stops.  [safe_decode]
    on the same pack would have returned an error. *)
Theorem pipeline_decode_panic_escapes (w : World PS) (d : DecoderPlugin)
    (p : PipelinePack) (s : PS) :
  Decoded (pack w) = false ->
  Decoders (pack w) !! Decoder (pack w) = Some d ->
  Decode env d (pack w) (plugins w) = Panicked (p, s) ->
  let w' := mkWorld p s (trace w ++ [EvDecode d]) (next_addr w) in
  pipeline w = Panicked w' /\
  (forall recycleChan, Run_dataChan recycleChan w = Panicked w') /\
  safe_decode d w = Returned (Some "Error running decoder on pack.") w'.
Proof.
  intros Hd Hdec Hp. simpl. repeat split; try intros rc;
    run_M; rewrite ?Hd, ?Hdec; simpl; rewrite Hp; reflexivity.
Qed.

(** *** The filter stage *)

Lemma add_trace_nil (w : World PS) : add_trace [] w = w.
Proof. destruct w. unfold add_trace. simpl. rewrite app_nil_r. reflexivity. Qed.

Lemma add_trace_app (a b : list Event) (w : World PS) :
  add_trace b (add_trace a w) = add_trace (a ++ b) w.
Proof. unfold add_trace. simpl. rewrite app_assoc. reflexivity. Qed.

(** [safe_filter] always returns: a panic of the filter, or a nil filter,
    ends in the handler. *)
Lemma safe_filter_returns (filterName : string) (filter : option FilterPlugin)
    (w : World PS) :
  exists w', safe_filter filterName filter w = Returned tt w'.
Proof.
  unfold safe_filter, recovering, call_FilterMsg, panic.
  destruct filter as [f|]; [|eexists; reflexivity].
  destruct (FilterMsg env f (pack w) (plugins w)) as [[] [p s]|[p s]];
    eexists; reflexivity.
Qed.

Lemma run_filters_returns (filters : list string) (w : World PS) :
  exists w', run_filters filters w = Returned tt w'.
Proof.
  revert w. induction filters as [|n rest IH]; intros w; simpl.
  - eexists; reflexivity.
  - unfold bind at 1, get_pack. unfold bind at 1.
    destruct (safe_filter_returns n (Filters (pack w) !! n) w) as [w1 ->].
    unfold bind, get_pack. destruct (Blocked (pack w1)); [eexists; reflexivity|].
    apply IH.
Qed.

Lemma run_filters_cons (n : string) (rest : list string) (w w1 : World PS) :
  safe_filter n (Filters (pack w) !! n) w = Returned tt w1 ->
  run_filters (n :: rest) w
  = if Blocked (pack w1) then Returned tt w1 else run_filters rest w1.
Proof.
  intros H. simpl. unfold bind at 1, get_pack. unfold bind at 1. rewrite H.
  unfold bind, get_pack. destruct (Blocked (pack w1)); reflexivity.
Qed.

(** Once a filter has left the pack blocked the loop is over: the filters
    after it add nothing to the state or to the trace. *)
Lemma run_filters_short_circuit (pre : list string) (f : string)
    (post : list string) (w : World PS) :
  Blocked (pack (state_of (run_filters (pre ++ [f]) w))) = true ->
  run_filters (pre ++ f :: post) w = run_filters (pre ++ [f]) w.
Proof.
  revert w. induction pre as [|n pre IH]; intros w; simpl app.
  - destruct (safe_filter_returns f (Filters (pack w) !! f) w) as [w1 H1].
    rewrite !(run_filters_cons _ _ _ _ H1).
    destruct (Blocked (pack w1)) eqn:B; [reflexivity|].
    simpl. unfold ret. simpl. congruence.
  - destruct (safe_filter_returns n (Filters (pack w) !! n) w) as [w1 H1].
    rewrite !(run_filters_cons _ _ _ _ H1).
    destruct (Blocked (pack w1)) eqn:B; [reflexivity|]. apply IH.
Qed.

Lemma seed_outputs_returns (outputs : list string) (w : World PS) :
  exists w', seed_outputs outputs w = Returned tt w'.
Proof.
  revert w. induction outputs as [|n rest IH]; intros w; simpl.
  - eexists; reflexivity.
  - unfold bind, modify_pack. apply IH.
Qed.

(** [filterProcessor] always returns. *)
Lemma filterProcessor_returns (w : World PS) :
  exists w', filterProcessor w = Returned tt w'.
Proof.
  unfold filterProcessor.
  unfold bind at 1, new_NameSet. unfold bind at 1, modify_pack.
  unfold bind at 1, get_pack. simpl.
  destruct (Cfg.Lookup _ _) as [located ok].
  unfold bind at 1.
  destruct ok; simpl; unfold modify_pack, ret;
    (destruct (Cfg.FilterChains _ !! _) as [fc|];
     [| eexists; reflexivity]);
    unfold bind at 1;
    match goal with
    | |- context [seed_outputs ?o ?w0] =>
      destruct (seed_outputs_returns o w0) as [w1 ->]
    end; apply run_filters_returns.
Qed.

(** C4: a filter that panics leaves the pack blocked, the handler of
    [safe_filter] sets the flag; once a filter of the chain has left
    [Blocked] set, the filters after it are not invoked (the chain ends in
    the state that filter left); and a pack that leaves the filter stage
    blocked is not sent to any output: [pipeline] returns recycle=true right
    there and [Run] zeroes the pack and puts it on [recycleChan]. *)
Theorem blocked_short_circuits :
  (forall filterName f (w : World PS) p s,
     FilterMsg env f (pack w) (plugins w) = Panicked (p, s) ->
     safe_filter filterName (Some f) w
     = Returned tt
         (mkWorld (with_Blocked true p) s
            (trace w ++ [EvFilterMsg filterName f; EvLog (FilterPanic filterName)])
            (next_addr w))) /\
  (forall pre f post (w : World PS),
     Blocked (pack (state_of (run_filters (pre ++ [f]) w))) = true ->
     run_filters (pre ++ f :: post) w = run_filters (pre ++ [f]) w) /\
  (forall w : World PS,
     exists w1, filterProcessor w = Returned tt w1 /\
       (Blocked (pack w1) = true ->
        filter_and_deliver w = Returned true w1 /\
        (Decoded (pack w) = true ->
         pipeline w = Returned true w1 /\
         forall recycleChan,
           Run_dataChan recycleChan w
           = Returned tt
               (mkWorld (Zero (pack w1)) (plugins w1)
                  (trace w1 ++ [EvSend recycleChan]) (next_addr w1))))).
Proof.
  split; [|split].
  - intros filterName f w p s H.
    unfold safe_filter, recovering, call_FilterMsg. rewrite H.
    unfold bind, log, emit, modify_pack. simpl.
    rewrite <- app_assoc. reflexivity.
  - apply run_filters_short_circuit.
  - intros w. destruct (filterProcessor_returns w) as [w1 H1].
    exists w1. split; [exact H1|]. intros B.
    assert (F : filter_and_deliver w = Returned true w1).
    { unfold filter_and_deliver. unfold bind at 1. rewrite H1.
      unfold bind at 1, get_pack. rewrite B. reflexivity. }
    split; [exact F|]. intros Hd.
    assert (P : pipeline w = Returned true w1).
    { unfold pipeline. unfold bind at 1, get_pack. rewrite Hd. exact F. }
    split; [exact P|]. intros rc.
    unfold Run_dataChan. unfold bind at 1. rewrite P.
    unfold bind, modify_pack, send, emit. reflexivity.
Qed.

(** *** The fan-out stage *)

(** The delivery loop visits the entries in the order given: it sends the
    pack once on the channel of each name in use that has one, logs each
    name in use that has none, counts the sends, and does nothing else. *)
Lemma deliver_spec (names : list (string * bool)) (i : nat) (w : World PS) :
  exists evs,
    deliver names i w
    = Returned (i + length (targets (pack w) names)) (add_trace evs w) /\
    sends evs = targets (pack w) names /\
    missing_logged evs = orphans (pack w) names /\
    Forall is_delivery evs.
Proof.
  revert i w. induction names as [|[n use] rest IH]; intros i w.
  - exists []. simpl. unfold ret. rewrite add_trace_nil, Nat.add_0_r.
    repeat split. constructor.
  - simpl. destruct use; simpl.
    + unfold bind at 1, get_pack.
      destruct (OutputChans (pack w) !! n) as [c|] eqn:E; simpl.
      * unfold bind at 1, send, emit.
        destruct (IH (i + 1) (add_trace [EvSend c] w)) as (evs & H & Hs & Hm & Hf).
        exists (EvSend c :: evs). simpl in *.
        change (mkWorld (pack w) (plugins w) (trace w ++ [EvSend c]) (next_addr w))
          with (add_trace [EvSend c] w).
        rewrite H, add_trace_app, Hs, Hm.
        repeat split; [f_equal; lia | constructor; [exact I | exact Hf]].
      * unfold bind at 1, log, emit.
        destruct (IH i (add_trace [EvLog (OutputMissing n)] w))
          as (evs & H & Hs & Hm & Hf).
        exists (EvLog (OutputMissing n) :: evs). simpl in *.
        change (mkWorld (pack w) (plugins w)
                  (trace w ++ [EvLog (OutputMissing n)]) (next_addr w))
          with (add_trace [EvLog (OutputMissing n)] w).
        rewrite H, add_trace_app, Hs, Hm.
        repeat split. constructor; [exact I | exact Hf].
    + apply IH.
Qed.

(** C3: for a decoded pack that leaves the filter stage not blocked, the
    dispatcher sends the pack exactly once on the channel of each output
    name of its set (each name mapped to true) that has a channel in
    [OutputChans], logs each such name that has none, and does nothing else;
    it returns recycle=true exactly when it sent nothing, and then [Run]
    zeroes the pack and puts it on [recycleChan]. *)
Theorem fan_out_exactly_once (w : World PS) :
  Decoded (pack w) = true ->
  exists w1, filterProcessor w = Returned tt w1 /\
    (Blocked (pack w1) = false ->
     exists evs recycle,
       pipeline w = Returned recycle (add_trace evs w1) /\
       sends evs ≡ₚ targets (pack w1) (map_to_list (entries (OutputNames (pack w1)))) /\
       missing_logged evs
         ≡ₚ orphans (pack w1) (map_to_list (entries (OutputNames (pack w1)))) /\
       Forall is_delivery evs /\
       (recycle = true <-> sends evs = []) /\
       forall recycleChan,
         Run_dataChan recycleChan w
         = Returned tt
             (if recycle
              then mkWorld (Zero (pack w1)) (plugins w1)
                     (trace w1 ++ evs ++ [EvSend recycleChan]) (next_addr w1)
              else add_trace evs w1)).
Proof.
  intros Hd. destruct (filterProcessor_returns w) as [w1 H1].
  exists w1. split; [exact H1|]. intros B.
  destruct (deliver_spec (range (order env) (entries (OutputNames (pack w1)))) 0 w1)
    as (evs & H & Hs & Hm & Hf).
  exists evs, (Nat.eqb (length (sends evs)) 0).
  assert (P : pipeline w
              = Returned (Nat.eqb (length (sends evs)) 0) (add_trace evs w1)).
  { unfold pipeline. unfold bind at 1, get_pack. rewrite Hd. simpl.
    unfold filter_and_deliver. unfold bind at 1. rewrite H1.
    unfold bind at 1, get_pack. rewrite B.
    unfold bind at 1. rewrite H. unfold ret. rewrite Hs. reflexivity. }
  split; [exact P|].
  split; [rewrite Hs; apply omap_Permutation, range_perm|].
  split; [rewrite Hm; apply omap_Permutation, range_perm|].
  split; [exact Hf|].
  split.
  - rewrite Nat.eqb_eq. split; [apply nil_length_inv | intros ->; reflexivity].
  - intros rc. unfold Run_dataChan. unfold bind at 1. rewrite P.
    destruct (Nat.eqb (length (sends evs)) 0).
    + unfold bind, modify_pack, send, emit. simpl.
      rewrite <- app_assoc. reflexivity.
    + reflexivity.
Qed.

(** *** BroadcastEvent *)

(** One wrapped call: the global's [Event] is invoked once, and the call
    returns whether or not the handler panicked. *)
Lemma safe_plugin_global_event_spec (wrapper : PluginWrapper) (g : PluginGlobal)
    (eventType : string) (w : World PS) :
  global wrapper = Some g ->
  exists w' evs,
    safe_plugin_global_event wrapper eventType w = Returned tt w' /\
    pack w' = pack w /\ trace w' = trace w ++ evs /\
    notified evs = [(g, eventType)] /\ Forall is_broadcast evs.
Proof.
  intros G. unfold safe_plugin_global_event, recovering, call_Event. rewrite G.
  destruct (Event_ env g eventType (plugins w)) as [[] s|s].
  - eexists _, [EvEvent g eventType]. repeat split. repeat constructor.
  - eexists _, [EvEvent g eventType; EvLog (EventPanic eventType)].
    unfold log, emit. simpl. rewrite <- app_assoc.
    repeat split. repeat constructor.
Qed.

Lemma notify_globals_spec (wrappers : list (string * PluginWrapper))
    (eventType : string) (w : World PS) :
  exists w' evs,
    notify_globals wrappers eventType w = Returned tt w' /\
    pack w' = pack w /\ trace w' = trace w ++ evs /\
    notified evs = tag eventType <$> globals wrappers /\
    Forall is_broadcast evs.
Proof.
  revert w. induction wrappers as [|[n wr] rest IH]; intros w.
  - exists w, []. simpl. rewrite app_nil_r. repeat split. constructor.
  - simpl. unfold bind at 1.
    destruct (global wr) as [g|] eqn:G.
    + destruct (safe_plugin_global_event_spec wr g eventType w G)
        as (w1 & evs1 & H1 & P1 & T1 & N1 & F1).
      rewrite H1.
      destruct (IH w1) as (w2 & evs2 & H2 & P2 & T2 & N2 & F2).
      exists w2, (evs1 ++ evs2). rewrite H2.
      repeat split.
      * congruence.
      * rewrite T2, T1, app_assoc. reflexivity.
      * unfold notified in *. rewrite omap_app, N1, N2. reflexivity.
      * apply Forall_app; split; assumption.
    + unfold ret. apply IH.
Qed.

(** C9, as the code has it: [BroadcastEvent] posts the event on the bus and
    then calls [Event] exactly once on the global of every wrapper of
    [config.Filters] and of [config.Outputs] that has one, each call under
    the panic wrapper: [BroadcastEvent] returns whatever the handlers do, a
    handler that panics is logged, and the other globals are still notified.
    The wrappers of [config.Inputs] and [config.Decoders] are not visited. *)
Theorem BroadcastEvent_notifies_filters_and_outputs :
  (forall (config : Cfg.t) (eventType : string) (w : World PS),
     exists w' evs,
       BroadcastEvent config eventType w = Returned tt w' /\
       pack w' = pack w /\
       trace w' = trace w ++ EvPost eventType :: evs /\
       notified evs
         ≡ₚ tag eventType <$> (globals (map_to_list (Cfg.Filters config)) ++
                                globals (map_to_list (Cfg.Outputs config))) /\
       Forall is_broadcast evs) /\
  (forall (wrapper : PluginWrapper) g (eventType : string) (w : World PS) s,
     global wrapper = Some g ->
     Event_ env g eventType (plugins w) = Panicked s ->
     safe_plugin_global_event wrapper eventType w
     = Returned tt
         (mkWorld (pack w) s
            (trace w ++ [EvEvent g eventType; EvLog (EventPanic eventType)])
            (next_addr w))).
Proof.
  split.
  - intros config eventType w.
    unfold BroadcastEvent. unfold bind at 1, post.
    destruct (Post env eventType (plugins w)) as [err s] eqn:EP.
    set (w0 := mkWorld (pack w) s (trace w ++ [EvPost eventType]) (next_addr w)).
    assert (L : exists w1 evs0,
               (match err with Some e => log (PostError e) | None => ret tt end) w0
               = Returned tt w1 /\ pack w1 = pack w /\
               trace w1 = trace w0 ++ evs0 /\ notified evs0 = [] /\
               Forall is_broadcast evs0).
    { destruct err as [e|].
      - eexists _, [EvLog (PostError e)]. repeat split. repeat constructor.
      - exists w0, []. unfold ret. rewrite app_nil_r. repeat split. constructor. }
    destruct L as (w1 & evs0 & H0 & P0 & T0 & N0 & F0).
    unfold bind at 1. rewrite H0.
    destruct (notify_globals_spec (range (order env) (Cfg.Filters config)) eventType w1)
      as (w2 & evs1 & H1 & P1 & T1 & N1 & F1).
    unfold bind at 1. rewrite H1.
    destruct (notify_globals_spec (range (order env) (Cfg.Outputs config)) eventType w2)
      as (w3 & evs2 & H2 & P2 & T2 & N2 & F2).
    exists w3, (evs0 ++ evs1 ++ evs2). rewrite H2.
    repeat split.
    + congruence.
    + rewrite T2, T1, T0. subst w0. simpl.
      rewrite <- !app_assoc. reflexivity.
    + unfold notified in *. rewrite !omap_app, N0, N1, N2. simpl.
      rewrite fmap_app. unfold globals.
      apply Permutation_app; apply fmap_Permutation, omap_Permutation, range_perm.
    + repeat (apply Forall_app; split); assumption.
  - intros wrapper g eventType w s G H.
    unfold safe_plugin_global_event, recovering, call_Event. rewrite G, H.
    unfold log, emit. simpl. rewrite <- app_assoc. reflexivity.
Qed.

End Dispatcher.


(** The pack of an input whose decoder panics. *)
Lemma pipeline_decode_panic_escapes_witness :
  pipeline demo_env (demo_world "buggy" false "default")
  = Panicked (mkWorld (demo_pack "buggy" false "default") 1 [EvDecode 2] 1) /\
  (forall recycleChan,
     Run_dataChan demo_env recycleChan (demo_world "buggy" false "default")
     = Panicked (mkWorld (demo_pack "buggy" false "default") 1 [EvDecode 2] 1)) /\
  safe_decode demo_env 2 (demo_world "buggy" false "default")
  = Returned (Some "Error running decoder on pack.")
      (mkWorld (demo_pack "buggy" false "default") 1 [EvDecode 2] 1).
Proof.
  exact (pipeline_decode_panic_escapes demo_env (demo_world "buggy" false "default")
           2 (demo_pack "buggy" false "default") 1 eq_refl eq_refl eq_refl).
Defined.

(** A panicking filter, a chain whose second filter blocks, and the pack
    that chain leaves blocked. *)
Lemma blocked_short_circuits_witness :
  Blocked (pack (state_of
    (safe_filter demo_env "buggy" (Some 2) (demo_world "json" true "panicky")))) = true /\
  run_filters demo_env (["pass"] ++ "block" :: ["pass"]) (demo_world "json" true "blocking")
  = run_filters demo_env (["pass"] ++ ["block"]) (demo_world "json" true "blocking") /\
  (exists w1,
     pipeline demo_env (demo_world "json" true "blocking") = Returned true w1 /\
     filtered (trace w1) = ["pass"; "block"] /\ sends (trace w1) = [] /\
     forall recycleChan,
       Run_dataChan demo_env recycleChan (demo_world "json" true "blocking")
       = Returned tt
           (mkWorld (Zero demo_env (pack w1)) (plugins w1)
              (trace w1 ++ [EvSend recycleChan]) (next_addr w1))).
Proof.
  destruct (blocked_short_circuits demo_env) as (A & B & C).
  split; [|split].
  - exact (f_equal (fun r => Blocked (pack (state_of r)))
             (A "buggy" 2 (demo_world "json" true "panicky")
                (demo_pack "json" true "panicky") 1 eq_refl)).
  - apply (B ["pass"] "block" ["pass"]). reflexivity.
  - destruct (C (demo_world "json" true "blocking")) as (w1 & H1 & H).
    vm_compute in H1. injection H1 as <-.
    destruct (H eq_refl) as (_ & H2). destruct (H2 eq_refl) as (P & R).
    eexists. split; [exact P|].
    split; [reflexivity|]. split; [reflexivity|]. exact R.
Defined.

(** A decoded pack on the default chain: the output "log" has a channel,
    the output "file" has none. *)
Lemma fan_out_exactly_once_witness :
  exists w1 evs,
    filterProcessor demo_env (demo_world "json" true "default") = Returned tt w1 /\
    pipeline demo_env (demo_world "json" true "default")
    = Returned false (add_trace evs w1) /\
    sends evs ≡ₚ [100] /\ missing_logged evs ≡ₚ ["file"].
Proof.
  destruct (fan_out_exactly_once demo_env (demo_world "json" true "default") eq_refl)
    as (w1 & H1 & H).
  pose proof H1 as H1'. vm_compute in H1'. injection H1' as <-.
  destruct (H eq_refl) as (evs & recycle & P & S & L & _ & Rc & _).
  eexists. exists evs. split; [exact H1|].
  assert (recycle = false) as ->.
  { destruct recycle; [|reflexivity].
    destruct Rc as [Rc _]. rewrite (Rc eq_refl) in S.
    vm_compute in S. apply Permutation_nil_cons in S. destruct S. }
  split; [exact P|]. split; [exact S | exact L].
Defined.

(** The global that panics on every event. *)
Lemma BroadcastEvent_witness :
  safe_plugin_global_event demo_env (mkWrapper "buggy" (Some 0)) RELOAD
    (demo_world "json" true "default")
  = Returned tt
      (mkWorld (demo_pack "json" true "default") 1
         [EvEvent 0 RELOAD; EvLog (EventPanic RELOAD)] 1).
Proof.
  destruct (BroadcastEvent_notifies_filters_and_outputs demo_env) as [_ B].
  exact (B (mkWrapper "buggy" (Some 0)) 0 RELOAD (demo_world "json" true "default") 1
           eq_refl eq_refl).
Defined.

(** C9 as stated fails: the configuration has an input plugin "udp" whose
    wrapper holds the global 7; [BroadcastEvent] returns without having
    called [Event] on it. *)
Lemma BroadcastEvent_skips_inputs :
  Cfg.Inputs demo_config !! "udp" = Some (mkWrapper "udp" (Some 7)) /\
  exists w',
    BroadcastEvent demo_env demo_config RELOAD (demo_world "json" true "default")
    = Returned tt w' /\
    notified (trace w') = [(1, RELOAD); (0, RELOAD); (2, RELOAD)] /\
    (7, RELOAD) ∉ notified (trace w').
Proof.
  split; [reflexivity|]. eexists. split; [vm_compute; reflexivity|].
  split; [reflexivity|].
  intros H. vm_compute in H. repeat (apply elem_of_cons in H as [H|H]; [discriminate|]).
  inversion H.
Qed.

End Pipeline.

(** ** runner.go: the per-message path of the Runner *)

Module Runner.
Import Go.

(** A scratch object ([outData]) is handed around by reference: its identity
    stays, its content is rewritten in place. *)
Record OutData (D : Type) : Type := mkOutData { oid : nat; content : D }.
Arguments mkOutData {D} oid content.
Arguments oid {D} o.
Arguments content {D} o.

(** A buffered channel: the queued values and the free slots left. *)
Record chan (A : Type) : Type := mkChan { buf : list A; free : nat }.
Arguments mkChan {A} buf free.
Arguments buf {A} c.
Arguments free {A} c.

Inductive LogLine : Type :=
| PrepOutDataError (err : error)
| ZeroOutDataFailed.

(** A Runner and the [RunnerGlobal] it points to: [self.outData], the two
    channels, the state of the [DataRecycler] plugin, and the log. *)
Record State (D PS : Type) : Type := mkState {
  outData : option (OutData D);
  dataChan : chan (OutData D);
  recycleChan : chan (OutData D);
  recycler : PS;
  logged : list LogLine
}.
Arguments mkState {D PS} outData dataChan recycleChan recycler logged.
Arguments outData {D PS} s.
Arguments dataChan {D PS} s.
Arguments recycleChan {D PS} s.
Arguments recycler {D PS} s.
Arguments logged {D PS} s.

(** A method of the Runner returns, parks its goroutine on a channel
    operation that cannot proceed, or panics. *)
Inductive outcome (S A : Type) : Type :=
| Done (a : A) (s : S)
| Parked (s : S)
| Panics (s : S).
Arguments Done {S A} a s.
Arguments Parked {S A} s.
Arguments Panics {S A} s.

(** The [DataRecycler] the Runner drives: each method gets the scratch's
    content and the plugin's state and returns or panics with both. *)
Record DataRecycler (D PS : Type) : Type := mkRecycler {
  ZeroOutData : D -> PS -> result (D * PS) unit;
  PrepOutData : Pipeline.PipelinePack -> D -> option Z -> PS
                -> result (D * PS) (option error)
}.
Arguments ZeroOutData {D PS} _.
Arguments PrepOutData {D PS} _.

(** *** A recycler for examples

    Its scratch is a counter: [PrepOutData] adds one to it and, by its mood,
    returns nil, returns an error or panics; [ZeroOutData] resets it or
    panics.  The plugin's state counts the calls. *)

Inductive Mood : Type := Works | Fails | Crashes.

Definition demo_recycler (prep zero : Mood) : DataRecycler nat nat :=
  mkRecycler nat nat
    (fun d calls =>
       match zero with
       | Crashes => Panicked (d, S calls)
       | _ => Returned tt (0, S calls)
       end)
    (fun _ d _ calls =>
       match prep with
       | Works => Returned None (d + 1, S calls)
       | Fails => Returned (Some "cannot serialize") (d + 1, S calls)
       | Crashes => Panicked (d + 1, S calls)
       end).

(** A Runner with two scratch objects on [recycleChan], as after [InitOnce]
    with a pool of one. *)
Definition demo_state : State nat nat :=
  mkState None (mkChan [] 2) (mkChan [mkOutData 1 0; mkOutData 2 0] 0) 0 [].

Definition demo_pack : Pipeline.PipelinePack :=
  Pipeline.demo_pack "json" true "default".

Section Methods.
Context {D PS : Type} (Recycler : DataRecycler D PS).

Definition R (A : Type) : Type := State D PS -> outcome (State D PS) A.

Definition ret {A} (a : A) : R A := fun s => Done a s.

Definition bind {A B} (m : R A) (k : A -> R B) : R B :=
  fun s =>
    match m s with
    | Done a s' => k a s'
    | Parked s' => Parked s'
    | Panics s' => Panics s'
    end.

Notation "x <- m ;; k" := (bind m (fun x => k))
  (at level 100, m at next level, k at level 200, right associativity).
Notation "m ;; k" := (bind m (fun _ => k))
  (at level 100, k at level 200, right associativity).

Definition recovering {A} (body : R A) (handler : R A) : R A :=
  fun s =>
    match body s with
    | Panics s' => handler s'
    | r => r
    end.

Definition log (l : LogLine) : R unit :=
  fun s =>
    Done tt (mkState (outData s) (dataChan s) (recycleChan s) (recycler s)
               (logged s ++ [l])).

(** [self.outData = <-self.global.recycleChan] *)
Definition claim_outData : R unit :=
  fun s =>
    match buf (recycleChan s) with
    | [] => Parked s
    | o :: rest =>
      Done tt (mkState (Some o) (dataChan s)
                 (mkChan rest (S (free (recycleChan s)))) (recycler s) (logged s))
    end.

(** [self.global.recycleChan <- outData] *)
Definition send_recycleChan (o : OutData D) : R unit :=
  fun s =>
    match free (recycleChan s) with
    | O => Parked s
    | S n =>
      Done tt (mkState (outData s) (dataChan s)
                 (mkChan (buf (recycleChan s) ++ [o]) n) (recycler s) (logged s))
    end.

(** [self.global.dataChan <- self.outData] *)
Definition send_dataChan (o : OutData D) : R unit :=
  fun s =>
    match free (dataChan s) with
    | O => Parked s
    | S n =>
      Done tt (mkState (outData s) (mkChan (buf (dataChan s) ++ [o]) n)
                 (recycleChan s) (recycler s) (logged s))
    end.

(** The scratch [self.outData] refers to; no method below runs before one
    is claimed. *)
Definition current : R (OutData D) :=
  fun s =>
    match outData s with
    | Some o => Done o s
    | None => Panics s
    end.

(** A plugin call on the scratch [o]: what it wrote to the scratch is seen
    through every reference, here [self.outData]. *)
Definition on_scratch {A} (o : OutData D) (f : D -> PS -> result (D * PS) A)
    : R (A * OutData D) :=
  fun s =>
    match f (content o) (recycler s) with
    | Returned a (d, ps) =>
      let o' := mkOutData (oid o) d in
      Done (a, o') (mkState (Some o') (dataChan s) (recycleChan s) ps (logged s))
    | Panicked (d, ps) =>
      let o' := mkOutData (oid o) d in
      Panics (mkState (Some o') (dataChan s) (recycleChan s) ps (logged s))
    end.

Definition RecycleOutData (o : OutData D) : R unit :=
  recovering
    (r <- on_scratch o (ZeroOutData Recycler) ;;
     send_recycleChan (snd r))
    (log ZeroOutDataFailed).

Definition safe_prepoutdata (pack : Pipeline.PipelinePack) (o : OutData D)
    (timeout : option Z) : R (option error) :=
  recovering
    (r <- on_scratch o (fun d => PrepOutData Recycler pack d timeout) ;;
     ret (fst r))
    (ret (Some "PrepOutData panic detected")).

Definition Deliver (pack : Pipeline.PipelinePack) : R unit :=
  claim_outData ;;
  o <- current ;;
  err <- safe_prepoutdata pack o None ;;
  o <- current ;;
  match err with
  | Some e => log (PrepOutDataError e) ;; RecycleOutData o
  | None => send_dataChan o
  end.

Definition FilterMsg (pipelinePack : Pipeline.PipelinePack) : R unit :=
  claim_outData ;;
  o <- current ;;
  err <- safe_prepoutdata pipelinePack o None ;;
  o <- current ;;
  match err with
  | Some e => log (PrepOutDataError e) ;; RecycleOutData o
  | None => send_dataChan o
  end.

Definition Read (pipelinePack : Pipeline.PipelinePack) (timeout : option Z)
    : R (option error) :=
  claim_outData ;;
  o <- current ;;
  err <- safe_prepoutdata pipelinePack o timeout ;;
  o <- current ;;
  match err with
  | Some e => RecycleOutData o ;; ret err
  | None => send_dataChan o ;; ret err
  end.

(** How [PrepOutData] fails on a scratch: it returns an error, or it
    panics and [safe_prepoutdata] makes an error of the panic.  Either way it
    may have written to the scratch and to the plugin's state. *)
Definition prep_failure (pack : Pipeline.PipelinePack) (d : D) (timeout : option Z)
    (ps : PS) : option (error * D * PS) :=
  match PrepOutData Recycler pack d timeout ps with
  | Returned (Some e) (d', ps') => Some (e, d', ps')
  | Returned None _ => None
  | Panicked (d', ps') => Some ("PrepOutData panic detected", d', ps')
  end.

(** Where a failed [PrepOutData] leaves the Runner: the scratch [o], with
    the content [d] the call left in it, went through [ZeroOutData].  If that
    returned, the scratch is back at the end of [recycleChan]; if it
    panicked, the panic is logged and the scratch is on neither channel.
    [dataChan] is as it was. *)
Definition after_failure (s : State D PS) (o : OutData D) (rest : list (OutData D))
    (d : D) (ps : PS) (lines : list LogLine) : State D PS :=
  match ZeroOutData Recycler d ps with
  | Returned _ (z, ps') =>
    mkState (Some (mkOutData (oid o) z)) (dataChan s)
      (mkChan (rest ++ [mkOutData (oid o) z]) (free (recycleChan s)))
      ps' (logged s ++ lines)
  | Panicked (z, ps') =>
    mkState (Some (mkOutData (oid o) z)) (dataChan s)
      (mkChan rest (S (free (recycleChan s))))
      ps' (logged s ++ lines ++ [ZeroOutDataFailed])
  end.

Ltac run_R :=
  unfold Deliver, FilterMsg, Read, RecycleOutData, safe_prepoutdata, recovering,
    on_scratch, claim_outData, send_recycleChan, send_dataChan, current, log,
    bind, ret;
  simpl.

Lemma failed_prep_Deliver (pack : Pipeline.PipelinePack) (s : State D PS)
    (o : OutData D) (rest : list (OutData D)) (e : error) (d : D) (ps : PS) :
  buf (recycleChan s) = o :: rest ->
  prep_failure pack (content o) None (recycler s) = Some (e, d, ps) ->
  Deliver pack s = Done tt (after_failure s o rest d ps [PrepOutDataError e]).
Proof.
  unfold prep_failure, after_failure. intros Hb Hp. run_R. rewrite Hb. simpl.
  destruct (PrepOutData Recycler pack (content o) None (recycler s))
    as [[e'|] [d' ps']|[d' ps']]; inversion Hp; subst; simpl;
    destruct (ZeroOutData Recycler d ps) as [[] [z ps'']|[z ps'']]; simpl;
    rewrite <- ?app_assoc; reflexivity.
Qed.

Lemma failed_prep_Read (pack : Pipeline.PipelinePack) (timeout : option Z)
    (s : State D PS) (o : OutData D) (rest : list (OutData D)) (e : error)
    (d : D) (ps : PS) :
  buf (recycleChan s) = o :: rest ->
  prep_failure pack (content o) timeout (recycler s) = Some (e, d, ps) ->
  Read pack timeout s = Done (Some e) (after_failure s o rest d ps []).
Proof.
  unfold prep_failure, after_failure. intros Hb Hp. run_R. rewrite Hb. simpl.
  destruct (PrepOutData Recycler pack (content o) timeout (recycler s))
    as [[e'|] [d' ps']|[d' ps']]; inversion Hp; subst; simpl;
    destruct (ZeroOutData Recycler d ps) as [[] [z ps'']|[z ps'']]; simpl;
    rewrite ?app_nil_r; reflexivity.
Qed.

(** C7, as the code has it: in [Deliver], [FilterMsg] and [Read], when
    [PrepOutData] returns an error or panics on the claimed scratch, the
    scratch is not sent on [dataChan]; it is passed to [ZeroOutData] and,
    when [ZeroOutData] returns, put back on [recycleChan].  When
    [ZeroOutData] panics, [RecycleOutData] logs it and the scratch is not
    put back. *)
Theorem failed_prep_recycles_scratch (pack : Pipeline.PipelinePack)
    (timeout : option Z) (s : State D PS) (o : OutData D)
    (rest : list (OutData D)) :
  buf (recycleChan s) = o :: rest ->
  (forall e d ps,
     prep_failure pack (content o) None (recycler s) = Some (e, d, ps) ->
     Deliver pack s = Done tt (after_failure s o rest d ps [PrepOutDataError e]) /\
     FilterMsg pack s = Done tt (after_failure s o rest d ps [PrepOutDataError e])) /\
  (forall e d ps,
     prep_failure pack (content o) timeout (recycler s) = Some (e, d, ps) ->
     Read pack timeout s = Done (Some e) (after_failure s o rest d ps [])) /\
  (forall d ps lines,
     dataChan (after_failure s o rest d ps lines) = dataChan s /\
     match ZeroOutData Recycler d ps with
     | Returned _ (z, _) =>
       buf (recycleChan (after_failure s o rest d ps lines))
       = rest ++ [mkOutData (oid o) z]
     | Panicked _ =>
       buf (recycleChan (after_failure s o rest d ps lines)) = rest
     end).
Proof.
  intros Hb. split; [|split].
  - intros e d ps Hp. split.
    + apply failed_prep_Deliver; assumption.
    + apply (failed_prep_Deliver pack s o rest e d ps); assumption.
  - intros e d ps Hp. apply failed_prep_Read; assumption.
  - intros d ps lines. unfold after_failure.
    destruct (ZeroOutData Recycler d ps) as [[] [z ps']|[z ps']]; split; reflexivity.
Qed.

End Methods.

(** [PrepOutData] returns an error, then panics; [ZeroOutData] works: the
    scratch 1 is zeroed and back at the end of [recycleChan]. *)
Lemma failed_prep_recycles_scratch_witness :
  Deliver (demo_recycler Fails Works) demo_pack demo_state
  = Done tt
      (mkState (Some (mkOutData 1 0)) (mkChan [] 2)
         (mkChan [mkOutData 2 0; mkOutData 1 0] 0) 2
         [PrepOutDataError "cannot serialize"]) /\
  Read (demo_recycler Crashes Works) demo_pack (Some 500%Z) demo_state
  = Done (Some "PrepOutData panic detected")
      (mkState (Some (mkOutData 1 0)) (mkChan [] 2)
         (mkChan [mkOutData 2 0; mkOutData 1 0] 0) 2 []).
Proof.
  split.
  - destruct (failed_prep_recycles_scratch (demo_recycler Fails Works) demo_pack None
                demo_state (mkOutData 1 0) [mkOutData 2 0] eq_refl) as (A & _ & _).
    exact (proj1 (A "cannot serialize" 1 1 eq_refl)).
  - destruct (failed_prep_recycles_scratch (demo_recycler Crashes Works) demo_pack
                (Some 500%Z) demo_state (mkOutData 1 0) [mkOutData 2 0] eq_refl)
      as (_ & B & _).
    exact (B "PrepOutData panic detected" 1 1 eq_refl).
Defined.

(** C7 as stated fails: [PrepOutData] returns an error and [ZeroOutData]
    panics.  [Deliver] returns with the scratch 1 on neither channel: of
    the two scratch objects the Runner had, one is left. *)
Lemma Deliver_loses_scratch :
  exists s',
    Deliver (demo_recycler Fails Crashes) demo_pack demo_state = Done tt s' /\
    buf (recycleChan s') = [mkOutData 2 0] /\
    buf (dataChan s') = [] /\
    logged s' = [PrepOutDataError "cannot serialize"; ZeroOutDataFailed].
Proof. eexists. repeat split. Qed.

End Runner.

(** ** message/message.go: constructors, lookups, copies and the JSON codec *)

Module MessageOps.
Import Go Message.

(** [make([]T, len(s)); copy(dst, s)] when [s] is not nil, nil otherwise. *)
Definition clone {A} (zero : A) (s : slice A) : slice A :=
  if alloc s then copy (make zero (len s) (len s)) s else nil_slice.

(** Field copy constructor.  The name, the type and the format are read
    through their pointers; the value slices are copied when not nil, the
    byte slices inside [ValueBytes] shared. *)
Definition CopyField (src : option Field) : call (option Field) :=
  match src with
  | None => Ret None
  | Some src =>
    match Name src, ValueType src, ValueFormat src with
    | Some n, Some t, Some fmt =>
      let dst := NewFieldInit n t fmt in
      let dst := with_ValueString (clone "" (ValueString src)) dst in
      let dst := with_ValueBytes (clone nil_slice (ValueBytes src)) dst in
      let dst := with_ValueInteger (clone 0%Z (ValueInteger src)) dst in
      let dst := with_ValueDouble (clone 0%float (ValueDouble src)) dst in
      let dst := with_ValueBool (clone false (ValueBool src)) dst in
      Ret (Some dst)
    | _, _, _ => Panic
    end
  end.

(** [for i, v := range src.Fields { dst.Fields[i] = CopyField(v) }] *)
Fixpoint copy_fields (fs : list (option Field)) : call (list (option Field)) :=
  match fs with
  | [] => Ret []
  | v :: rest =>
    match CopyField v with
    | Panic => Panic
    | Ret c =>
      match copy_fields rest with
      | Panic => Panic
      | Ret cs => Ret (c :: cs)
      end
    end
  end.

Definition with_Fields (fs : slice (option Field)) (m : Message) : Message :=
  mkMessage (Uuid m) (Timestamp m) (Type_ m) (Logger m) (Severity m) (Payload m)
    (EnvVersion m) (Pid m) (Hostname m) fs.

(** Message assignment operator, for [src] and [dst] two different
    pointers ([src == dst] returns at once): what [dst] points to
    afterwards. *)
Definition Copy (src dst : option Message) : call (option Message) :=
  match src, dst with
  | Some s, Some d =>
    let d := if Nat.ltb 0 (cap (Uuid s))
             then SetUuid (Some d) (Uuid s)
             else Some (with_Uuid nil_slice d) in
    let d := match Timestamp s with
             | Some v => SetTimestamp d v
             | None => option_map (fun d => mkMessage (Uuid d) None (Type_ d) (Logger d)
                          (Severity d) (Payload d) (EnvVersion d) (Pid d) (Hostname d)
                          (Fields d)) d
             end in
    let d := match Type_ s with
             | Some v => SetType d v
             | None => option_map (fun d => mkMessage (Uuid d) (Timestamp d) None (Logger d)
                          (Severity d) (Payload d) (EnvVersion d) (Pid d) (Hostname d)
                          (Fields d)) d
             end in
    let d := match Logger s with
             | Some v => SetLogger d v
             | None => option_map (fun d => mkMessage (Uuid d) (Timestamp d) (Type_ d) None
                          (Severity d) (Payload d) (EnvVersion d) (Pid d) (Hostname d)
                          (Fields d)) d
             end in
    let d := match Severity s with
             | Some v => SetSeverity d v
             | None => option_map (fun d => mkMessage (Uuid d) (Timestamp d) (Type_ d)
                          (Logger d) None (Payload d) (EnvVersion d) (Pid d) (Hostname d)
                          (Fields d)) d
             end in
    let d := match Payload s with
             | Some v => SetPayload d v
             | None => option_map (fun d => mkMessage (Uuid d) (Timestamp d) (Type_ d)
                          (Logger d) (Severity d) None (EnvVersion d) (Pid d) (Hostname d)
                          (Fields d)) d
             end in
    let d := match EnvVersion s with
             | Some v => SetEnvVersion d v
             | None => option_map (fun d => mkMessage (Uuid d) (Timestamp d) (Type_ d)
                          (Logger d) (Severity d) (Payload d) None (Pid d) (Hostname d)
                          (Fields d)) d
             end in
    let d := match Pid s with
             | Some v => SetPid d v
             | None => option_map (fun d => mkMessage (Uuid d) (Timestamp d) (Type_ d)
                          (Logger d) (Severity d) (Payload d) (EnvVersion d) None (Hostname d)
                          (Fields d)) d
             end in
    let d := match Hostname s with
             | Some v => SetHostname d v
             | None => option_map (fun d => mkMessage (Uuid d) (Timestamp d) (Type_ d)
                          (Logger d) (Severity d) (Payload d) (EnvVersion d) (Pid d) None
                          (Fields d)) d
             end in
    match copy_fields (items (Fields s)) with
    | Panic => Panic
    | Ret cs => Ret (option_map (with_Fields (of_list cs)) d)
    end
  | _, _ => Ret dst
  end.

(** Message copy constructor. *)
Definition CopyMessage (src : option Message) : call (option Message) :=
  match src with
  | None => Ret None
  | Some _ => Copy src (Some empty_Message)
  end.

(** [FindFirstField]: the first field with the name, nil when there is
    none.  The loop reads [m.Fields[i].Name] of every entry it passes.  A
    nil [m.Fields] has no entry, so the guard [m.Fields != nil] adds
    nothing to the bound of the loop. *)
Fixpoint first_named (name : string) (fs : list (option Field)) : call (option Field) :=
  match fs with
  | [] => Ret None
  | None :: _ => Panic
  | Some fd :: rest =>
    match Name fd with
    | Some n => if String.eqb n name then Ret (Some fd) else first_named name rest
    | None => first_named name rest
    end
  end.

Definition FindFirstField (m : option Message) (name : string) : call (option Field) :=
  match m with
  | None => Ret None
  | Some m => first_named name (items (Fields m))
  end.

(** [FindAllFields]: every field with the name, in order.  Nil entries are
    passed over; the name of any other entry is read through its pointer. *)
Fixpoint all_named (name : string) (fs : list (option Field))
    (all : slice (option Field)) : call (slice (option Field)) :=
  match fs with
  | [] => Ret all
  | None :: rest => all_named name rest all
  | Some fd :: rest =>
    match Name fd with
    | None => Panic
    | Some n =>
      if String.eqb n name
      then all_named name rest (set_index (grow None all) (len all) (Some fd))
      else all_named name rest all
    end
  end.

Definition FindAllFields (m : option Message) (name : string)
    : call (slice (option Field)) :=
  match m with
  | None => Ret nil_slice
  | Some m => all_named name (items (Fields m)) nil_slice
  end.

(** [GetFieldValue]: the first value of the first field with the name. *)
Definition GetFieldValue (m : option Message) (name : string)
    : call (option FieldValue * bool) :=
  match m with
  | None => Ret (None, false)
  | Some _ =>
    match FindFirstField m name with
    | Panic => Panic
    | Ret None => Ret (None, false)
    | Ret (Some f) =>
      match ValueType f with
      | None => Panic
      | Some t =>
        Ret (match head (values t f) with
             | Some v => (Some v, true)
             | None => (None, false)
             end)
      end
    end
  end.

(** The fields a lookup by name is about. *)
Definition named (name : string) (f : option Field) : bool :=
  match f with
  | Some fd =>
    match Name fd with
    | Some n => String.eqb n name
    | None => false
    end
  | None => false
  end.

(** A nil slice has no element. *)
Definition nil_is_empty {A} (s : slice A) : Prop := alloc s = false -> items s = [].

(** What [CopyField] carries over: a field, not nil, with its name, type
    and format set and nothing in [XXX_unrecognized]; value slices that are
    proper slices; and no NaN among the doubles. *)
Definition copyable (f : option Field) : Prop :=
  exists fd, f = Some fd /\
    is_Some (Name fd) /\ is_Some (ValueType fd) /\ is_Some (ValueFormat fd) /\
    nil_is_empty (ValueString fd) /\ nil_is_empty (ValueBytes fd) /\
    nil_is_empty (ValueInteger fd) /\ nil_is_empty (ValueDouble fd) /\
    nil_is_empty (ValueBool fd) /\
    alloc (XXX_unrecognized fd) = false /\ items (XXX_unrecognized fd) = [] /\
    Forall (fun x => PrimFloat.eqb x x = true) (items (ValueDouble fd)).

(** The field [flattenValue] adds for an entry [k: v] of an object whose
    value is a scalar. *)
Definition decoded_entry (path : string) (kv : string * Json) (f : option Field)
    : Prop :=
  exists fd t, f = Some fd /\
    Name fd = Some (child_key path (fst kv)) /\
    getValueType (reflect_json (snd kv)) = Ret (t, None) /\
    ValueType fd = Some t /\
    values t fd = [stored t (reflect_json (snd kv))].

(** [msg] is [m0] with fields added at the end, and nothing else changed. *)
Definition extends (m0 : Message) (msg : option Message) : Prop :=
  exists m' added, msg = Some m' /\
    with_Fields (Fields m0) m' = m0 /\
    items (Fields m') = items (Fields m0) ++ added.

(** A field [serialize_map] can write: a STRING field (also one whose type
    is not set, and a nil entry, which read as STRING) needs a first string,
    a DOUBLE field a first double; any other field is written as a
    placeholder. *)
Definition marshalable (f : option Field) : Prop :=
  match GetValueType f with
  | Field_STRING => exists fd, f = Some fd /\ items (ValueString fd) <> []
  | Field_DOUBLE => exists fd, f = Some fd /\ items (ValueDouble fd) <> []
  | _ => True
  end.

(** *** Setters and constructors *)

(** X2: [SetUuid] always leaves an identifier of 16 bytes: the first
    [min(16, len(v))] are those of [v]; the others are as they were when the
    identifier already had 16 bytes, and zero when it had to be allocated.
    No other attribute changes. *)
Theorem SetUuid_sixteen (m : Message) (v : slice byte) :
  exists m',
    SetUuid (Some m) v = Some m' /\
    len (Uuid m') = UUID_SIZE /\
    items (Uuid m')
    = take UUID_SIZE (items v) ++
      drop (len v) (if Nat.eqb (len (Uuid m)) UUID_SIZE
                    then items (Uuid m) else replicate UUID_SIZE x00) /\
    with_Uuid (Uuid m) m' = m.
Proof.
  eexists. split; [reflexivity|]. simpl.
  unfold copy, len, UUID_SIZE; simpl.
  assert (T : forall u : list byte, length u = 16 ->
            length (take (Nat.min 16 (length (items v))) (items v) ++
                    drop (Nat.min 16 (length (items v))) u) = 16 /\
            take (Nat.min 16 (length (items v))) (items v) ++
            drop (Nat.min 16 (length (items v))) u
            = take 16 (items v) ++ drop (length (items v)) u).
  { intros u Hu. split.
    - rewrite length_app, length_take, length_drop. lia.
    - destruct (Nat.le_ge_cases 16 (length (items v))) as [H|H].
      + rewrite Nat.min_l by exact H. rewrite !(drop_ge u) by lia. reflexivity.
      + rewrite Nat.min_r by exact H.
        rewrite (take_ge (items v) 16) by exact H.
        rewrite (take_ge (items v) (length (items v))) by lia. reflexivity. }
  destruct (Nat.eqb_spec (length (items (Uuid m))) 16) as [E|E]; simpl.
  - rewrite E. destruct (T (items (Uuid m)) E) as [T1 T2].
    repeat split; [exact T1 | exact T2 | destruct m; reflexivity].
  - destruct (T (replicate 16 x00) eq_refl) as [T1 T2].
    repeat split; [exact T1 | exact T2 | destruct m; reflexivity].
Qed.

(** X3: [AddField] puts the field at the end of [Fields] and changes nothing
    else; the backing array is replaced by one of capacity [2c+1] only when
    it is full. *)
Theorem AddField_appends (m : Message) (f : option Field) :
  exists m',
    AddField (Some m) f = Some m' /\
    items (Fields m') = items (Fields m) ++ [f] /\
    cap (Fields m')
    = (if Nat.eqb (len (Fields m)) (cap (Fields m))
       then cap (Fields m) * 2 + 1 else cap (Fields m)) /\
    with_Fields (Fields m) m' = m.
Proof.
  eexists. split; [reflexivity|]. simpl. split; [apply grow_insert|]. split.
  - destruct (Fields m) as [it sp al]. unfold grow, cap, len, set_index; simpl.
    destruct (Nat.eqb_spec (length it) (length it + length sp)) as [E|E]; simpl.
    + rewrite length_insert, length_app, length_take, length_drop, !length_replicate.
      unfold len, make; simpl. rewrite length_replicate. lia.
    + rewrite length_insert, length_take, length_drop, length_app. lia.
  - destruct m; reflexivity.
Qed.

Lemma NewField_supported (name : string) (v : Value) (fmt : Field_ValueFormat)
    (t : Field_ValueType) :
  getValueType v = Ret (t, None) -> kind v <> Array ->
  exists f,
    NewField name v fmt = Ret (Some f, None) /\
    Name f = Some name /\ ValueType f = Some t /\ ValueFormat f = Some fmt /\
    values t f = [stored t v] /\
    forall u, u <> t -> values u f = [].
Proof.
  intros Hv Harr. pose proof (getValueType_kinds _ _ Hv) as K.
  unfold NewField, AddValue. rewrite Hv. simpl.
  rewrite bool_decide_eq_true_2 by reflexivity. simpl.
  destruct t; simpl in K.
  - eexists; split; [reflexivity|]. repeat split.
    intros u Hu; destruct u; try reflexivity; congruence.
  - destruct K as [[K|K] E]; [congruence|].
    unfold Value_Bytes. rewrite !decide_True by assumption.
    eexists; split; [reflexivity|]. repeat split.
    + unfold values, stored. cbn [ValueBytes with_ValueBytes].
      rewrite grow_store. cbn [items nil_slice app fmap list_fmap].
      rewrite copy_of_list. reflexivity.
    + intros u Hu; destruct u; try reflexivity; congruence.
  - unfold Value_Int. rewrite K.
    eexists; split; [reflexivity|]. repeat split.
    intros u Hu; destruct u; try reflexivity; congruence.
  - unfold Value_Float. rewrite K.
    eexists; split; [reflexivity|]. repeat split.
    intros u Hu; destruct u; try reflexivity; congruence.
  - unfold Value_Bool. rewrite decide_True by assumption.
    eexists; split; [reflexivity|]. repeat split.
    intros u Hu; destruct u; try reflexivity; congruence.
Qed.

(** X4: [NewField] on a value of a supported type (an array of bytes apart)
    gives a field with the name, the type of the value and the format, that
    holds this one value; on a value of an unsupported kind it gives no
    field and the error of [getValueType]. *)
Theorem NewField_single_value (name : string) (v : Value) (fmt : Field_ValueFormat) :
  (forall t, getValueType v = Ret (t, None) -> kind v <> Array ->
     exists f,
       NewField name v fmt = Ret (Some f, None) /\
       Name f = Some name /\ ValueType f = Some t /\ ValueFormat f = Some fmt /\
       values t f = [stored t v] /\
       forall u, u <> t -> values u f = []) /\
  (forall t err, getValueType v = Ret (t, Some err) ->
     NewField name v fmt = Ret (None, Some err)).
Proof.
  split.
  - intros t. apply NewField_supported.
  - intros t err Hv. unfold NewField. rewrite Hv. reflexivity.
Qed.

Lemma NewField_single_value_witness :
  (exists f,
     NewField "foo" (of_string "bar") Field_RAW = Ret (Some f, None) /\
     values Field_STRING f = [OfString "bar"]) /\
  exists err,
    NewField "foo" (mkValue Uint Invalid "uint" "" [] 0 0%float false) Field_RAW
    = Ret (None, Some err).
Proof.
  destruct (NewField_single_value "foo" (of_string "bar") Field_RAW) as [A _].
  destruct (NewField_single_value "foo"
              (mkValue Uint Invalid "uint" "" [] 0 0%float false) Field_RAW) as [_ B].
  split.
  - destruct (A Field_STRING eq_refl ltac:(discriminate)) as (f & E & _ & _ & _ & V & _).
    exists f. split; [exact E | exact V].
  - eexists. apply (B Field_STRING). reflexivity.
Defined.

(** *** Looking fields up *)

Lemma all_named_ret (name : string) (fs : list (option Field))
    (acc s : slice (option Field)) :
  all_named name fs acc = Ret s ->
  items s = items acc ++ List.filter (named name) fs /\
  (List.filter (named name) fs = [] -> s = acc).
Proof.
  revert acc. induction fs as [|[fd|] fs IH]; intros acc H; simpl in *.
  - injection H as <-. rewrite app_nil_r. auto.
  - destruct (Name fd) as [n|]; [|discriminate].
    destruct (String.eqb n name).
    + apply IH in H as [H _]. rewrite H, grow_store, <- app_assoc.
      split; [reflexivity | discriminate].
    + apply IH, H.
  - apply IH, H.
Qed.

Lemma all_named_returns (name : string) (fs : list (option Field))
    (acc : slice (option Field)) :
  Forall (fun f => forall fd, f = Some fd -> is_Some (Name fd)) fs ->
  exists s, all_named name fs acc = Ret s.
Proof.
  intros H. revert acc. induction H as [|[fd|] fs Hf _ IH]; intros acc; simpl.
  - eauto.
  - destruct (Hf fd eq_refl) as [n ->]. destruct (String.eqb n name); apply IH.
  - apply IH.
Qed.

(** X5: [FindAllFields] returns, in their order, exactly the fields that have
    the name, and the nil slice when there is none, provided every field
    of the message has a name; nil entries are passed over. *)
Theorem FindAllFields_filter (m : Message) (name : string) :
  Forall (fun f => forall fd, f = Some fd -> is_Some (Name fd)) (items (Fields m)) ->
  exists s,
    FindAllFields (Some m) name = Ret s /\
    items s = List.filter (named name) (items (Fields m)) /\
    (List.filter (named name) (items (Fields m)) = [] -> s = nil_slice).
Proof.
  intros H. unfold FindAllFields.
  destruct (all_named_returns name _ nil_slice H) as [s E].
  exists s. split; [exact E|]. apply all_named_ret in E. exact E.
Qed.

Lemma first_named_spec (name : string) (fs : list (option Field)) :
  Forall is_Some fs ->
  first_named name fs = Ret (default None (head (List.filter (named name) fs))).
Proof.
  induction 1 as [|f fs [fd ->] _ IH]; simpl; [reflexivity|].
  destruct (Name fd) as [n|]; [|exact IH].
  destruct (String.eqb n name); [reflexivity | exact IH].
Qed.

(** X6: [FindFirstField] returns the first field that has the name, and nil
    when none has, provided the message holds no nil entry; it is then the
    first of the fields [FindAllFields] returns. *)
Theorem FindFirstField_first (m : Message) (name : string) :
  Forall is_Some (items (Fields m)) ->
  FindFirstField (Some m) name
  = Ret (default None (head (List.filter (named name) (items (Fields m))))) /\
  forall s, FindAllFields (Some m) name = Ret s ->
            FindFirstField (Some m) name = Ret (default None (head (items s))).
Proof.
  intros H. split; [apply first_named_spec, H|].
  intros s E. apply all_named_ret in E as [E _]. rewrite E. simpl.
  apply first_named_spec, H.
Qed.

(** X7: A nil entry that comes before any field with the name makes
    [FindFirstField] panic, where [FindAllFields] passes it over. *)
Theorem FindFirstField_nil_entry (m : Message) (name : string)
    (before after : list (option Field)) :
  items (Fields m) = before ++ None :: after ->
  Forall is_Some before ->
  List.filter (named name) before = [] ->
  FindFirstField (Some m) name = Panic.
Proof.
  intros E Hb Hn. unfold FindFirstField. rewrite E. clear E.
  induction Hb as [|f fs [fd ->] _ IH]; simpl in *; [reflexivity|].
  destruct (Name fd) as [n|]; [|apply IH, Hn].
  destruct (String.eqb n name); [discriminate | apply IH, Hn].
Qed.

Lemma filter_named_app (name : string) (a b : list (option Field)) :
  List.filter (named name) (a ++ b)
  = List.filter (named name) a ++ List.filter (named name) b.
Proof. apply List.filter_app. Qed.

(** X8: Added then looked up: on a message with no nil entry and no field of
    that name, [GetFieldValue] finds nothing; once the field
    [NewField(name, v, RAW)] is added it returns the value and true. *)
Theorem GetFieldValue_after_AddField (m : Message) (name : string) (v : Value)
    (t : Field_ValueType) :
  Forall is_Some (items (Fields m)) ->
  List.filter (named name) (items (Fields m)) = [] ->
  getValueType v = Ret (t, None) ->
  kind v <> Array ->
  GetFieldValue (Some m) name = Ret (None, false) /\
  exists f,
    NewField name v Field_RAW = Ret (Some f, None) /\
    GetFieldValue (AddField (Some m) (Some f)) name = Ret (Some (stored t v), true).
Proof.
  intros Hs Hn Hv Harr. split.
  - unfold GetFieldValue, FindFirstField. rewrite (first_named_spec _ _ Hs), Hn.
    reflexivity.
  - destruct (NewField_supported name v Field_RAW t Hv Harr)
      as (f & E & N & T & _ & V & _).
    exists f. split; [exact E|].
    destruct (AddField_fields m (Some f)) as (m' & Em & I).
    rewrite Em. unfold GetFieldValue, FindFirstField.
    rewrite first_named_spec by (rewrite I; apply Forall_app; split; [exact Hs|];
                                 repeat constructor; eauto).
    rewrite I, filter_named_app, Hn. simpl. rewrite N, String.eqb_refl. simpl.
    rewrite T, V. reflexivity.
Qed.

(** *** Copies *)

Lemma all2_refl {A} (eqb : A -> A -> bool) (l : list A) :
  Forall (fun x => eqb x x = true) l -> all2 eqb l l = true.
Proof. induction 1 as [|x l E _ IH]; simpl; [reflexivity|]. rewrite E. exact IH. Qed.

Lemma copy_make_items {A} (zero : A) (n : nat) (s : slice A) :
  len s = n -> items (copy (make zero n n) s) = items s.
Proof.
  intros L. unfold copy, make, len in *. simpl.
  rewrite length_replicate, L, Nat.min_id.
  rewrite take_ge, drop_ge by (rewrite ?length_replicate; lia).
  apply app_nil_r.
Qed.

Lemma copy_len {A} (dst src : slice A) : len (copy dst src) = len dst.
Proof.
  unfold copy, len. simpl. rewrite length_app, length_take, length_drop. lia.
Qed.

Lemma clone_items {A} (zero : A) (s : slice A) :
  nil_is_empty s ->
  items (clone zero s) = items s /\ alloc (clone zero s) = alloc s.
Proof.
  intros N. unfold clone. destruct (alloc s) eqn:E.
  - rewrite copy_make_items by reflexivity. auto.
  - rewrite (N E). auto.
Qed.

Lemma clone_DeepEqual {A} (eqb : A -> A -> bool) (zero : A) (s : slice A) :
  nil_is_empty s ->
  Forall (fun x => eqb x x = true) (items s) ->
  slice_DeepEqual eqb s (clone zero s) = true.
Proof.
  intros N R. destruct (clone_items zero s N) as [I Al].
  unfold slice_DeepEqual. rewrite I, Al, Bool.eqb_reflx, all2_refl; auto.
Qed.

Lemma Forall_refl {A} (eqb : A -> A -> bool) (l : list A) :
  (forall x, eqb x x = true) -> Forall (fun x => eqb x x = true) l.
Proof. intros R. apply Forall_forall. auto. Qed.

Lemma byte_eqb_refl (b : byte) : Byte.eqb b b = true.
Proof. apply Byte.byte_dec_lb. reflexivity. Qed.

Lemma bytes_DeepEqual_refl (s : slice byte) : slice_DeepEqual Byte.eqb s s = true.
Proof.
  unfold slice_DeepEqual.
  rewrite Bool.eqb_reflx, all2_refl; [reflexivity|].
  apply Forall_refl, byte_eqb_refl.
Qed.

Lemma CopyField_DeepEqual (f : option Field) :
  copyable f ->
  exists c, CopyField f = Ret c /\ ptr_eq Field_DeepEqual f c = true.
Proof.
  intros (fd & -> & [n Hn] & [t Ht] & [fmt Hf] & Ns & Nb & Ni & Nd & Nbo & Xa & Xi & Fl).
  unfold CopyField. rewrite Hn, Ht, Hf. eexists. split; [reflexivity|].
  unfold ptr_eq, Field_DeepEqual. simpl.
  rewrite Hn, Ht, Hf. simpl.
  rewrite String.eqb_refl, Z.eqb_refl.
  unfold Field_ValueType_eqb. rewrite bool_decide_eq_true_2 by reflexivity.
  rewrite !clone_DeepEqual; auto.
  - unfold slice_DeepEqual. simpl. rewrite Xa, Xi. reflexivity.
  - apply Forall_refl. intros []; reflexivity.
  - apply Forall_refl, Z.eqb_refl.
  - apply Forall_refl, bytes_DeepEqual_refl.
  - apply Forall_refl, String.eqb_refl.
Qed.

Lemma copy_fields_DeepEqual (fs : list (option Field)) :
  Forall copyable fs ->
  exists cs, copy_fields fs = Ret cs /\ all2 (ptr_eq Field_DeepEqual) fs cs = true.
Proof.
  induction 1 as [|f fs Hf _ (cs & E & D)]; simpl; [eauto|].
  destruct (CopyField_DeepEqual f Hf) as (c & Ec & Dc).
  rewrite Ec, E. exists (c :: cs). simpl. rewrite Dc, D. auto.
Qed.

(** What [Copy] leaves in [dst]: the attributes of [src], the copied fields
    in a slice of their own, and the identifier [SetUuid] writes. *)
Lemma Copy_attributes (s d : Message) (cs : list (option Field)) :
  copy_fields (items (Fields s)) = Ret cs ->
  Copy (Some s) (Some d)
  = Ret (Some (mkMessage
                 (if Nat.ltb 0 (cap (Uuid s))
                  then copy (if negb (Nat.eqb (len (Uuid d)) UUID_SIZE)
                             then make x00 UUID_SIZE UUID_SIZE else Uuid d) (Uuid s)
                  else nil_slice)
                 (Timestamp s) (Type_ s) (Logger s) (Severity s) (Payload s)
                 (EnvVersion s) (Pid s) (Hostname s) (of_list cs))).
Proof.
  intros E. unfold Copy. rewrite E.
  destruct s as [u ts ty lg sv pl ev pid hn fs]. cbn [Uuid Timestamp Type_ Logger
    Severity Payload EnvVersion Pid Hostname Fields].
  destruct (Nat.ltb 0 (cap u)); cbn [SetUuid with_Uuid];
    destruct ts, ty, lg, sv, pl, ev, pid, hn; reflexivity.
Qed.

Lemma ptr_eq_refl {A} (eqb : A -> A -> bool) (p : option A) :
  (forall x, eqb x x = true) -> ptr_eq eqb p p = true.
Proof. intros R. destruct p; simpl; auto. Qed.

(** X9: [CopyMessage] gives a message [Equals] accepts as equal to the
    original, when the original has an allocated [Fields] slice of copyable
    fields and an identifier that is empty without capacity or of 16
    bytes. *)
Theorem CopyMessage_Equals (src : Message) :
  cap (Uuid src) = 0 \/ len (Uuid src) = UUID_SIZE ->
  alloc (Fields src) = true ->
  Forall copyable (items (Fields src)) ->
  exists dst, CopyMessage (Some src) = Ret (Some dst) /\ Equals src dst = true.
Proof.
  intros U Al Fc.
  destruct (copy_fields_DeepEqual _ Fc) as (cs & E & D).
  unfold CopyMessage. rewrite (Copy_attributes _ _ _ E).
  eexists. split; [reflexivity|].
  unfold Equals. simpl.
  rewrite !ptr_eq_refl by (first [apply Z.eqb_refl | apply String.eqb_refl]).
  unfold slice_DeepEqual at 1. simpl. rewrite Al, D. simpl.
  rewrite !andb_true_r. unfold bytes_Equal.
  assert (B : forall l, all2 Byte.eqb l l = true)
    by (intros l; apply all2_refl, Forall_refl, byte_eqb_refl).
  destruct (Nat.ltb 0 (cap (Uuid src))) eqn:C.
  - destruct U as [U|U]; [apply Nat.ltb_lt in C; lia|].
    rewrite copy_make_items by exact U. apply B.
  - apply Nat.ltb_ge in C. unfold cap in C.
    destruct (items (Uuid src)); [reflexivity | simpl in C; lia].
Qed.

(** X10: A message whose [Fields] slice is nil is never [Equals] to its copy:
    [Copy] always makes a slice, and [reflect.DeepEqual] tells a nil slice
    from an empty one. *)
Theorem CopyMessage_nil_Fields_differs (src : Message) (dst : option Message) :
  alloc (Fields src) = false ->
  CopyMessage (Some src) = Ret dst ->
  exists d, dst = Some d /\ Equals src d = false.
Proof.
  intros Al E. unfold CopyMessage in E.
  destruct (copy_fields (items (Fields src))) as [cs|] eqn:Ec.
  - rewrite (Copy_attributes _ _ _ Ec) in E. injection E as <-.
    eexists. split; [reflexivity|].
    unfold Equals. cbn [Fields]. unfold slice_DeepEqual at 1.
    rewrite Al. simpl. apply andb_false_r.
  - unfold Copy in E. rewrite Ec in E. discriminate E.
Qed.

(** X11: A source identifier with capacity and a length other than 16 is
    copied into 16 bytes, so that the copy is not [Equals] to the
    original. *)
Theorem CopyMessage_short_Uuid_differs (src : Message) (dst : option Message) :
  0 < cap (Uuid src) ->
  len (Uuid src) <> UUID_SIZE ->
  CopyMessage (Some src) = Ret dst ->
  exists d, dst = Some d /\ len (Uuid d) = UUID_SIZE /\ Equals src d = false.
Proof.
  intros C L E. unfold CopyMessage in E.
  destruct (copy_fields (items (Fields src))) as [cs|] eqn:Ec.
  - rewrite (Copy_attributes _ _ _ Ec) in E. injection E as <-.
    apply Nat.ltb_lt in C. rewrite C.
    eexists. split; [reflexivity|].
    assert (N : len (copy (make x00 UUID_SIZE UUID_SIZE) (Uuid src)) = UUID_SIZE).
    { rewrite copy_len. reflexivity. }
    cbn [Uuid empty_Message len items nil_slice length Nat.eqb negb UUID_SIZE] in *.
    split; [exact N|].
    unfold Equals, bytes_Equal. cbn [Uuid].
    destruct (all2 Byte.eqb _ _) eqn:A; [|reflexivity].
    apply all2_length in A. unfold len in *. congruence.
  - unfold Copy in E. rewrite Ec in E. discriminate E.
Qed.

(** *** Flattening a decoded document *)

Lemma reflect_json_not_Array (x : Json) : kind (reflect_json x) <> Array.
Proof. destruct x; discriminate. Qed.

Lemma scalar_type (v : Json) :
  is_scalar v = true ->
  exists t, getValueType (reflect_json v) = Ret (t, None).
Proof. destruct v; try discriminate; intros _; eexists; reflexivity. Qed.

Lemma AddValue_same_type (f : Field) (t : Field_ValueType) (v : Value) :
  ValueType f = Some t ->
  getValueType v = Ret (t, None) ->
  kind v <> Array ->
  exists f', AddValue (Some f) v = Returned None (Some f') /\
    Name f' = Name f /\ ValueType f' = ValueType f /\
    ValueFormat f' = ValueFormat f /\
    values t f' = values t f ++ [stored t v] /\
    forall u, u <> t -> values u f' = values u f.
Proof.
  intros Ht Hv Harr. pose proof (getValueType_kinds _ _ Hv) as K.
  unfold AddValue. rewrite Hv, Ht.
  rewrite bool_decide_eq_true_2 by reflexivity. simpl.
  destruct t; simpl in K.
  - stored_at_end.
  - destruct K as [[K|K] E]; [congruence|].
    unfold Value_Bytes. rewrite !decide_True by assumption.
    stored_at_end.
  - unfold Value_Int. rewrite K.
    stored_at_end.
  - unfold Value_Float. rewrite K.
    stored_at_end.
  - unfold Value_Bool. rewrite decide_True by assumption.
    stored_at_end.
Qed.

Lemma each_AddValue_same_type (t : Field_ValueType) (rest : list Json) :
  Forall (fun x => getValueType (reflect_json x) = Ret (t, None)) rest ->
  forall f, ValueType f = Some t ->
  exists f',
    each (fun v f => AddValue f (reflect_json v)) rest (Some f)
    = Returned None (Some f') /\
    Name f' = Name f /\ ValueType f' = Some t /\
    values t f' = values t f ++ ((fun x => stored t (reflect_json x)) <$> rest).
Proof.
  induction 1 as [|x rest Hx _ IH]; intros f Ht.
  - exists f. simpl. rewrite app_nil_r. auto.
  - destruct (AddValue_same_type f t _ Ht Hx (reflect_json_not_Array x))
      as (f1 & E1 & N1 & T1 & _ & V1 & _).
    destruct (IH f1) as (f' & E & N & T & V); [congruence|].
    exists f'. cbn [each]. rewrite E1.
    change (each (fun v f => AddValue f (reflect_json v)) rest (Some f1)
            = Returned None (Some f') /\ Name f' = Name f /\
              ValueType f' = Some t /\
              values t f' = values t f ++
                ((fun x => stored t (reflect_json x)) <$> (x :: rest))).
    rewrite V, V1, <- app_assoc. repeat split; [exact E | congruence | exact T].
Qed.

(** X12: An array whose first element is a string, a number or a boolean and
    whose elements all have the type of the first becomes one field, named
    by the path, that holds every element in order; the field is added at
    the end of the message. *)
Theorem flattenArray_same_type (a0 : Json) (rest : list Json) (m : Message)
    (path : string) (t : Field_ValueType) :
  is_scalar a0 = true ->
  Forall (fun x => getValueType (reflect_json x) = Ret (t, None)) (a0 :: rest) ->
  exists f m',
    flattenArray (a0 :: rest) (Some m) path = Returned None (Some m') /\
    items (Fields m') = items (Fields m) ++ [Some f] /\
    Name f = Some path /\ ValueType f = Some t /\
    values t f = (fun x => stored t (reflect_json x)) <$> (a0 :: rest).
Proof.
  intros Sa H. apply Forall_cons in H as [H0 Hr].
  destruct (NewField_supported path _ Field_RAW t H0 (reflect_json_not_Array a0))
    as (f & E & N & T & _ & V & _).
  destruct (each_AddValue_same_type t rest Hr f T) as (f' & E' & N' & T' & V').
  destruct (AddField_fields m (Some f')) as (m' & Em & I).
  exists f', m'. unfold flattenArray. rewrite Sa. unfold add_scalars.
  rewrite E, E', Em, V', V.
  repeat split; [exact I | congruence | exact T'].
Qed.

Lemma each_AddValue_stops (t : Field_ValueType) (x : Json) (pre post : list Json) :
  Forall (fun y => getValueType (reflect_json y) = Ret (t, None)) pre ->
  forall f, ValueType f = Some t ->
  exists f', ValueType f' = Some t /\
    each (fun v f => AddValue f (reflect_json v)) (pre ++ x :: post) (Some f)
    = match AddValue (Some f') (reflect_json x) with
      | Returned None g =>
        each (fun v f => AddValue f (reflect_json v)) post g
      | other => other
      end.
Proof.
  induction 1 as [|y pre Hy _ IH]; intros f Ht.
  - exists f. split; [exact Ht | reflexivity].
  - destruct (AddValue_same_type f t _ Ht Hy (reflect_json_not_Array y))
      as (f1 & E1 & _ & T1 & _).
    destruct (IH f1) as (f' & T & E); [congruence|].
    exists f'. split; [exact T|]. cbn [app each]. rewrite E1. exact E.
Qed.

(** X13: An element that [AddValue] does not take ends the walk of an array of
    scalars, and the field with the elements seen so far is never added:
    the message is left as it was.  A null panics (the error message reads
    the type of the value); an element of another type, also an array among
    numbers or booleans, returns the mismatch error; an object returns the
    error of [getValueType]. *)
Theorem flattenArray_bad_element (a0 x : Json) (pre post : list Json) (m : Message)
    (path : string) (t : Field_ValueType) :
  is_scalar a0 = true ->
  Forall (fun y => getValueType (reflect_json y) = Ret (t, None)) (a0 :: pre) ->
  (x = JNull ->
   flattenArray (a0 :: pre ++ x :: post) (Some m) path = Panicked (Some m)) /\
  (forall t', getValueType (reflect_json x) = Ret (t', None) -> t' <> t ->
   flattenArray (a0 :: pre ++ x :: post) (Some m) path
   = Returned (Some (mismatch_error t t')) (Some m)) /\
  (forall t' err, getValueType (reflect_json x) = Ret (t', Some err) ->
   flattenArray (a0 :: pre ++ x :: post) (Some m) path
   = Returned (Some err) (Some m)).
Proof.
  intros Sa H. apply Forall_cons in H as [H0 Hp].
  destruct (NewField_supported path _ Field_RAW t H0 (reflect_json_not_Array a0))
    as (f & E & _ & T & _).
  destruct (each_AddValue_stops t x pre post Hp f T)
    as (f' & T' & E').
  unfold flattenArray. rewrite Sa. unfold add_scalars. rewrite E, E'.
  repeat split.
  - intros ->. reflexivity.
  - intros t' Hx Hne. unfold AddValue. rewrite Hx, T'.
    rewrite bool_decide_eq_false_2 by exact Hne. reflexivity.
  - intros t' err Hx. unfold AddValue. rewrite Hx. reflexivity.
Qed.

Lemma flattenMap_scalar_entries (path : string) (entries : list (string * Json)) :
  Forall (fun kv => is_scalar (snd kv) = true) entries ->
  forall m, exists m' added,
    flattenMap entries (Some m) path = Returned None (Some m') /\
    items (Fields m') = items (Fields m) ++ added /\
    Forall2 (decoded_entry path) entries added.
Proof.
  induction 1 as [|[k v] entries Hs _ IH]; intros m.
  - exists m, []. rewrite app_nil_r. repeat split. constructor.
  - simpl in Hs. destruct (scalar_type v Hs) as [t Ht].
    destruct (NewField_supported (child_key path k) _ Field_RAW t Ht
                (reflect_json_not_Array v)) as (f & E & N & T & _ & V & _).
    destruct (AddField_fields m (Some f)) as (m1 & E1 & I1).
    destruct (IH m1) as (m' & added & E' & I' & F').
    exists m', (Some f :: added). unfold flattenMap in *. cbn [each fst snd].
    assert (S1 : flattenValue v (Some m) (child_key path k) = Returned None (Some m1)).
    { destruct v; try discriminate; cbn [flattenValue]; unfold add_scalar;
        rewrite E, E1; reflexivity. }
    rewrite S1. split; [exact E'|]. split.
    + rewrite I', I1, <- app_assoc. reflexivity.
    + constructor; [|exact F']. exists f, t. auto.
Qed.

(** X14: An object whose values are all strings, numbers or booleans adds one
    single-valued field per entry, in the order the entries are visited;
    the field is named by the key, after the path and a dot when the path
    is not empty. *)
Theorem flattenMap_scalars (path : string) (entries : list (string * Json))
    (m : Message) :
  Forall (fun kv => is_scalar (snd kv) = true) entries ->
  exists m' added,
    flattenMap entries (Some m) path = Returned None (Some m') /\
    items (Fields m') = items (Fields m) ++ added /\
    Forall2 (decoded_entry path) entries added.
Proof. intros H. apply flattenMap_scalar_entries, H. Qed.

Lemma append_inj (p a b : string) : p +:+ a = p +:+ b -> a = b.
Proof.
  induction p as [|c p IH]; intros H; [exact H|].
  apply IH. unfold String.append in H |- *. simpl in H. congruence.
Qed.

Lemma child_key_inj (path a b : string) : child_key path a = child_key path b -> a = b.
Proof.
  unfold child_key. destruct (Nat.eqb (String.length path) 0); [auto|].
  intros H. apply append_inj in H. apply (append_inj "." a b). exact H.
Qed.

Lemma decoded_entries_Some (path : string) (entries : list (string * Json))
    (added : list (option Field)) :
  Forall2 (decoded_entry path) entries added -> Forall is_Some added.
Proof.
  induction 1 as [|kv f entries added (fd & t & -> & _) _ IH]; constructor; eauto.
Qed.

Lemma decoded_entries_lookup (path k : string) (v : Json)
    (entries : list (string * Json)) (added : list (option Field)) :
  Forall2 (decoded_entry path) entries added ->
  assoc k entries = Some v ->
  Forall is_Some added /\
  exists f t,
    head (List.filter (named (child_key path k)) added) = Some (Some f) /\
    getValueType (reflect_json v) = Ret (t, None) /\
    ValueType f = Some t /\ values t f = [stored t (reflect_json v)].
Proof.
  intros F A. split; [eapply decoded_entries_Some, F|]. revert A.
  induction F as [|[k0 v0] f0 entries added (fd & t & -> & N & G & T & V) _ IH];
    intros A; [discriminate|].
  simpl in A, N, G, V. cbn [List.filter named]. rewrite N.
  destruct (String.eqb_spec k0 k) as [->|Hne].
  - injection A as <-. rewrite String.eqb_refl. exists fd, t. auto.
  - destruct (String.eqb_spec (child_key path k0) (child_key path k)) as [E|_];
      [apply child_key_inj in E; contradiction | exact (IH A)].
Qed.

(** X15: Decoded, then looked up: after [flattenMap] on an object of scalars,
    [GetFieldValue] by the name of a key returns the value of that key,
    when the message had no nil entry and no field of that name before. *)
Theorem flattenMap_then_GetFieldValue (path k : string) (v : Json)
    (entries : list (string * Json)) (m : Message) :
  Forall (fun kv => is_scalar (snd kv) = true) entries ->
  assoc k entries = Some v ->
  Forall is_Some (items (Fields m)) ->
  List.filter (named (child_key path k)) (items (Fields m)) = [] ->
  exists m' t,
    flattenMap entries (Some m) path = Returned None (Some m') /\
    getValueType (reflect_json v) = Ret (t, None) /\
    GetFieldValue (Some m') (child_key path k)
    = Ret (Some (stored t (reflect_json v)), true).
Proof.
  intros Hs A Hm Hn.
  destruct (flattenMap_scalar_entries path entries Hs m) as (m' & added & E & I & F).
  destruct (decoded_entries_lookup path k v entries added F A)
    as (Sa & f & t & Hh & G & T & V).
  exists m', t. split; [exact E|]. split; [exact G|].
  unfold GetFieldValue, FindFirstField.
  rewrite first_named_spec by (rewrite I; apply Forall_app; auto).
  rewrite I, filter_named_app, Hn. cbn [app]. rewrite Hh. simpl.
  rewrite T, V. reflexivity.
Qed.

(** *** Decoding *)

Lemma extends_refl (m : Message) : extends m (Some m).
Proof.
  exists m, []. rewrite app_nil_r. repeat split. destruct m; reflexivity.
Qed.

Lemma AddField_extends (m0 : Message) (msg : option Message) (f : option Field) :
  extends m0 msg -> extends m0 (AddField msg f).
Proof.
  intros (m1 & added & -> & A & I).
  destruct (AddField_fields m1 f) as (m' & E & I').
  exists m', (added ++ [f]). split; [exact E|]. split.
  - rewrite <- A. simpl in E. injection E as <-. destruct m1; reflexivity.
  - rewrite I', I, <- app_assoc. reflexivity.
Qed.

Lemma add_scalar_extends (m0 : Message) (v : Json) (msg : option Message)
    (path : string) :
  extends m0 msg -> extends m0 (state_of (add_scalar v msg path)).
Proof.
  intros H. unfold add_scalar.
  destruct (NewField path (reflect_json v) Field_RAW) as [[f e]|]; simpl;
    [apply AddField_extends, H | exact H].
Qed.

Lemma add_scalars_extends (m0 : Message) (a0 : Json) (rest : list Json)
    (msg : option Message) (path : string) :
  extends m0 msg -> extends m0 (state_of (add_scalars a0 rest msg path)).
Proof.
  intros H. unfold add_scalars.
  destruct (NewField path (reflect_json a0) Field_RAW) as [[f e]|]; simpl; [|exact H].
  destruct (each _ rest f) as [[err|] f'|f']; simpl;
    [exact H | apply AddField_extends, H | exact H].
Qed.

Lemma flattenValue_extends (m0 : Message) (v : Json) :
  forall (msg : option Message) (path : string),
    extends m0 msg -> extends m0 (state_of (flattenValue v msg path)).
Proof.
  apply (Json_induction
           (fun v => forall msg path, extends m0 msg ->
                     extends m0 (state_of (flattenValue v msg path)))).
  - intros msg path Hm. exact Hm.
  - intros b msg path Hm. apply add_scalar_extends, Hm.
  - intros x msg path Hm. apply add_scalar_extends, Hm.
  - intros s msg path Hm. apply add_scalar_extends, Hm.
  - intros a IH msg path Hm. simpl.
    destruct a as [|a0 rest]; [exact Hm|].
    destruct (is_scalar a0) eqn:Sa.
    + apply add_scalars_extends, Hm.
    + apply (each_indexed_invariant (extends m0)); [|exact Hm].
      eapply Forall_impl; [exact IH|]. simpl. intros x Hx i s0 Hs. apply Hx, Hs.
  - intros entries IH msg path Hm. simpl.
    apply (each_invariant (extends m0)); [|exact Hm].
    eapply Forall_impl; [exact IH|]. simpl. intros kv Hx s0 Hs. apply Hx, Hs.
Qed.


(** X16: However the walk of a document ends (nil, an error or a panic),
    [flattenValue] has changed nothing of the message but [Fields], and
    there it has only added at the end: the fields the message had are all
    still there, in their places. *)
Theorem flattenValue_only_appends (v : Json) (m : Message) (path : string) :
  exists m' added,
    state_of (flattenValue v (Some m) path) = Some m' /\
    with_Fields (Fields m) m' = m /\
    items (Fields m') = items (Fields m) ++ added.
Proof. apply (flattenValue_extends m v (Some m) path), extends_refl. Qed.


(** *** Encoding *)

Lemma serialize_entries_returns (lib : Lib) (fs : list (option Field)) :
  forall x, (exists out, serialize_entries lib x fs = Ret out) <-> Forall marshalable fs.
Proof.
  induction fs as [|f fs IH]; intros x.
  - split; [constructor | eexists; reflexivity].
  - rewrite Forall_cons, <- (IH true). cbn [serialize_entries]. unfold marshalable.
    destruct (GetValueType f) eqn:G.
    + destruct f as [fd|].
      * destruct (items (ValueString fd)) as [|s0 l] eqn:I.
        -- split; [intros [out H]; discriminate H|].
           intros [(fd' & E & N) _]. injection E as <-. contradiction.
        -- destruct (serialize_entries lib true fs) as [more|].
           ++ split; [|eexists; reflexivity].
              intros _. split; [|eexists; reflexivity].
              exists fd. split; [reflexivity|]. rewrite I. discriminate.
           ++ split; [intros [out H]; discriminate H|].
              intros [_ [out H]]. discriminate H.
      * split; [intros [out H]; discriminate H|].
        intros [(fd' & E & _) _]. discriminate E.
    + destruct (serialize_entries lib true fs) as [more|].
      * split; [|eexists; reflexivity]. intros _. split; [exact I|eexists; reflexivity].
      * split; [intros [out H]; discriminate H|]. intros [_ [out H]]. discriminate H.
    + destruct (serialize_entries lib true fs) as [more|].
      * split; [|eexists; reflexivity]. intros _. split; [exact I|eexists; reflexivity].
      * split; [intros [out H]; discriminate H|]. intros [_ [out H]]. discriminate H.
    + destruct f as [fd|]; [|discriminate G].
      destruct (items (ValueDouble fd)) as [|x0 l] eqn:I.
      * split; [intros [out H]; discriminate H|].
        intros [(fd' & E & N) _]. injection E as <-. contradiction.
      * destruct (serialize_entries lib true fs) as [more|].
        -- split; [|eexists; reflexivity].
           intros _. split; [|eexists; reflexivity].
           exists fd. split; [reflexivity|]. rewrite I. discriminate.
        -- split; [intros [out H]; discriminate H|].
           intros [_ [out H]]. discriminate H.
    + destruct (serialize_entries lib true fs) as [more|].
      * split; [|eexists; reflexivity]. intros _. split; [exact I|eexists; reflexivity].
      * split; [intros [out H]; discriminate H|]. intros [_ [out H]]. discriminate H.
Qed.

(** X18: When [MarshalJSON] returns and when it panics.  It returns exactly for
    a message whose timestamp is set and whose STRING and DOUBLE fields
    all have a value; it panics on a nil message, on a message without
    timestamp (a new [Message{}]), on a nil entry of [Fields] and on a
    STRING or DOUBLE field without value.  Whatever the libraries do. *)
Theorem MarshalJSON_returns_iff (lib : Lib) (m : Message) :
  MarshalJSON lib None = Panic /\
  ((exists out, MarshalJSON lib (Some m) = Ret out) <->
   is_Some (Timestamp m) /\ Forall marshalable (items (Fields m))).
Proof.
  split; [reflexivity|].
  rewrite <- (serialize_entries_returns lib _ false).
  unfold MarshalJSON, serialize_map.
  destruct (Timestamp m) as [ts|].
  - destruct (serialize_entries lib false (items (Fields m))) as [body|].
    + split; [|eexists; reflexivity]. intros _. split; eauto.
    + split; [intros [out H]; discriminate H|]. intros [_ [out H]]. discriminate H.
  - split; [intros [out H]; discriminate H|]. intros [[ts H] _]. discriminate H.
Qed.

Lemma FindAllFields_filter_witness :
  exists s, FindAllFields (Some counted_message) "count" = Ret s /\
            items s = [count_field].
Proof.
  destruct (FindAllFields_filter counted_message "count") as (s & E & I & _).
  - vm_compute. repeat constructor. intros fd H. injection H as <-. eexists. reflexivity.
  - exists s. split; [exact E | exact I].
Defined.

Lemma FindFirstField_first_witness :
  FindFirstField (Some counted_message) "count" = Ret count_field.
Proof.
  apply (FindFirstField_first counted_message "count").
  vm_compute. repeat constructor. eexists. reflexivity.
Defined.

Lemma FindFirstField_nil_entry_witness :
  FindFirstField (Some (with_Fields (of_list [None; count_field]) empty_Message)) "count"
  = Panic.
Proof.
  apply (FindFirstField_nil_entry _ "count" [] [count_field]).
  - reflexivity.
  - constructor.
  - reflexivity.
Defined.

Lemma GetFieldValue_after_AddField_witness :
  GetFieldValue (Some empty_Message) "count" = Ret (None, false) /\
  exists f,
    NewField "count" (of_int 5) Field_RAW = Ret (Some f, None) /\
    GetFieldValue (AddField (Some empty_Message) (Some f)) "count"
    = Ret (Some (OfInteger 5), true).
Proof.
  apply (GetFieldValue_after_AddField empty_Message "count" (of_int 5) Field_INTEGER).
  - constructor.
  - reflexivity.
  - reflexivity.
  - discriminate.
Defined.

Lemma CopyMessage_Equals_witness :
  exists dst, CopyMessage (Some counted_message) = Ret (Some dst) /\
              Equals counted_message dst = true.
Proof.
  apply (CopyMessage_Equals counted_message).
  - right. reflexivity.
  - reflexivity.
  - vm_compute. repeat constructor. eexists. split; [reflexivity|].
    repeat split; eauto; discriminate.
Defined.

Lemma CopyMessage_nil_Fields_differs_witness :
  exists d, Some (with_Fields (of_list []) empty_Message) = Some d /\
            Equals empty_Message d = false.
Proof.
  apply (CopyMessage_nil_Fields_differs empty_Message); reflexivity.
Defined.

Lemma CopyMessage_short_Uuid_differs_witness :
  exists d,
    Some (mkMessage (of_list [x31; x00; x00; x00; x00; x00; x00; x00;
                              x00; x00; x00; x00; x00; x00; x00; x00])
            None None None None None None None None (of_list [])) = Some d /\
    len (Uuid d) = UUID_SIZE /\
    Equals (with_Uuid (of_list [x31]) empty_Message) d = false.
Proof.
  apply (CopyMessage_short_Uuid_differs (with_Uuid (of_list [x31]) empty_Message)).
  - simpl. unfold cap. simpl. lia.
  - discriminate.
  - reflexivity.
Defined.

Lemma flattenArray_same_type_witness :
  exists f m',
    flattenArray [JString "a"; JString "b"] (Some empty_Message) "tags"
    = Returned None (Some m') /\
    items (Fields m') = [Some f] /\
    Name f = Some "tags" /\ ValueType f = Some Field_STRING /\
    values Field_STRING f = [OfString "a"; OfString "b"].
Proof.
  apply (flattenArray_same_type (JString "a") [JString "b"] empty_Message "tags"
           Field_STRING).
  - reflexivity.
  - repeat constructor.
Defined.

Lemma flattenArray_bad_element_witness :
  flattenArray [JString "a"; JNull] (Some empty_Message) "tags"
  = Panicked (Some empty_Message) /\
  flattenArray [JString "a"; JNumber 1%float] (Some empty_Message) "tags"
  = Returned (Some (mismatch_error Field_STRING Field_DOUBLE)) (Some empty_Message).
Proof.
  split.
  - apply (flattenArray_bad_element (JString "a") JNull [] [] empty_Message "tags"
             Field_STRING); [reflexivity | repeat constructor | reflexivity].
  - apply (flattenArray_bad_element (JString "a") (JNumber 1%float) [] []
             empty_Message "tags" Field_STRING);
      [reflexivity | repeat constructor | reflexivity | discriminate].
Defined.

Lemma flattenMap_scalars_witness :
  exists m' added,
    flattenMap [("a", JString "x"); ("b", JBool true)] (Some empty_Message) "top"
    = Returned None (Some m') /\
    items (Fields m') = added /\
    Forall2 (decoded_entry "top") [("a", JString "x"); ("b", JBool true)] added.
Proof.
  apply (flattenMap_scalars "top" [("a", JString "x"); ("b", JBool true)]
           empty_Message).
  repeat constructor.
Defined.

Lemma flattenMap_then_GetFieldValue_witness :
  exists m' t,
    flattenMap [("a", JString "x"); ("b", JBool true)] (Some empty_Message) ""
    = Returned None (Some m') /\
    getValueType (reflect_json (JBool true)) = Ret (t, None) /\
    GetFieldValue (Some m') "b" = Ret (Some (stored t (reflect_json (JBool true))), true).
Proof.
  apply (flattenMap_then_GetFieldValue "" "b" (JBool true)
           [("a", JString "x"); ("b", JBool true)] empty_Message).
  - repeat constructor.
  - reflexivity.
  - constructor.
  - reflexivity.
Defined.

End MessageOps.

(** ** pipeline.go: building packs, and the dispatcher end to end *)

Module PipelineOps.
Import Go Pipeline.

(** What [wrapper.CreateWithError()] hands back as an [interface{}]: the
    object, by what the type assertions [plugin.(Decoder)] and
    [plugin.(Filter)] find in it (nothing when it does not implement the
    interface). *)
Record Plugin : Type := mkPlugin {
  as_decoder : option DecoderPlugin;
  as_filter : option FilterPlugin
}.

(** The line [InitDecoders] and [InitFilters] log. *)
Inductive InitLine : Type :=
| InitError (name : string) (err : error).

(** The name of the chain [filterProcessor] goes by: the one
    [config.Lookup.LocateChain] finds for the message, else the pack's. *)
Definition chain_name (p : PipelinePack) : string :=
  let '(located, ok) := Cfg.Lookup (Config p) (Message p) in
  if ok then located else FilterChain p.

(** The outputs of a chain, each once. *)
Definition distinct (outputs : list string) : list string :=
  elements (list_to_set outputs : gset string).

(** A creator for the wrappers of [demo_config]: the decoder "json", the
    filters "counter" and "plain"; the filter "buggy" fails to initialize. *)
Definition demo_create (w : PluginWrapper) : Plugin + error :=
  if String.eqb (name w) "json" then inl (mkPlugin (Some 0) None)
  else if String.eqb (name w) "buggy" then inr "no such file"
  else inl (mkPlugin None (Some 0)).

(** A decoded pack on a chain without filters that lists the output "log"
    twice and the output "file", which has no channel. *)
Definition direct_config : Cfg.t :=
  Cfg.mk "json" "direct" 2 ∅ ∅ ∅ ∅
    {[ "direct" := Chain.mk [] ["log"; "file"; "log"] ]}
    {[ "log" := 100 ]}
    (fun _ => ("", false)).

Definition direct_world : World nat :=
  mkWorld
    (mkPack (make x00 4 8) Message.empty_Message direct_config "json" ∅ ∅
       {[ "log" := 100 ]} true false "direct" 0
       (mkNameSet 0 {[ "stale" := true ]}))
    0 [] 1.

Section Dispatch.
Context {PS : Type} (env : Env PS).
Context (CreateWithError : PluginWrapper -> Plugin + error).

(** The loop of [InitDecoders]: [self.Decoders[name] = plugin.(Decoder)],
    a type assertion that panics on another plugin. *)
Fixpoint init_decoders (wrappers : list (string * PluginWrapper))
    (decoders : gmap string DecoderPlugin) (logs : list InitLine)
    : call (gmap string DecoderPlugin * list InitLine) :=
  match wrappers with
  | [] => Ret (decoders, logs)
  | (name, wrapper) :: rest =>
    match CreateWithError wrapper with
    | inr err => init_decoders rest decoders (logs ++ [InitError name err])
    | inl plugin =>
      match as_decoder plugin with
      | Some d => init_decoders rest (<[name := d]> decoders) logs
      | None => Panic
      end
    end
  end.

(** The loop of [InitFilters]. *)
Fixpoint init_filters (wrappers : list (string * PluginWrapper))
    (filters : gmap string FilterPlugin) (logs : list InitLine)
    : call (gmap string FilterPlugin * list InitLine) :=
  match wrappers with
  | [] => Ret (filters, logs)
  | (name, wrapper) :: rest =>
    match CreateWithError wrapper with
    | inr err => init_filters rest filters (logs ++ [InitError name err])
    | inl plugin =>
      match as_filter plugin with
      | Some f => init_filters rest (<[name := f]> filters) logs
      | None => Panic
      end
    end
  end.

(** The loop of [InitOutputs]. *)
Definition init_outputs (runners : list (string * Chan)) (chans : gmap string Chan)
    : gmap string Chan :=
  foldl (fun acc nr => <[fst nr := snd nr]> acc) chans runners.

(** [NewPipelinePack]: the pack and the lines logged, for a message buffer
    of [size] bytes and an [OutputNames] map allocated at [a]. *)
Definition NewPipelinePack (config : Cfg.t) (size a : nat)
    : call (PipelinePack * list InitLine) :=
  match init_decoders (range (order env) (Cfg.Decoders config)) ∅ [] with
  | Panic => Panic
  | Ret (decoders, logs) =>
    match init_filters (range (order env) (Cfg.Filters config)) ∅ logs with
    | Panic => Panic
    | Ret (filters, logs) =>
      Ret (mkPack (make x00 size size) Message.empty_Message config
             (Cfg.DefaultDecoder config) decoders filters
             (init_outputs (range (order env) (Cfg.OutputRunners config)) ∅)
             false false (Cfg.DefaultFilterChain config) 0 (mkNameSet a ∅),
           logs)
    end
  end.

(** The plugin a wrapper of the configuration gives a pack. *)
Definition created {P} (pick : Plugin -> option P) (w : option PluginWrapper)
    : option P :=
  match w with
  | Some w =>
    match CreateWithError w with
    | inl p => pick p
    | inr _ => None
    end
  | None => None
  end.

(** The wrappers of a map whose creation fails with [err]. *)
Definition fails (wrappers : gmap string PluginWrapper) (n : string) (err : error)
    : Prop :=
  exists w, wrappers !! n = Some w /\ CreateWithError w = inr err.

(** *** Building a pack *)

Lemma init_decoders_spec (ws : list (string * PluginWrapper)) :
  NoDup ws.*1 ->
  forall acc logs r logs',
    init_decoders ws acc logs = Ret (r, logs') ->
    (forall k, r !! k
               = match (list_to_map ws : gmap string PluginWrapper) !! k with
                 | Some w =>
                   match CreateWithError w with
                   | inl p => as_decoder p
                   | inr _ => acc !! k
                   end
                 | None => acc !! k
                 end) /\
    (forall n err, InitError n err ∈ logs' <->
                   InitError n err ∈ logs \/
                   exists w, (n, w) ∈ ws /\ CreateWithError w = inr err).
Proof.
  induction ws as [|[n w] rest IH]; intros ND acc logs r logs' H.
  - simpl in H. injection H as <- <-. split; [intros k; reflexivity|].
    intros n err. split; [auto|]. intros [H|(w & H & _)]; [exact H | inversion H].
  - simpl in ND. apply NoDup_cons in ND as [Nn ND]. simpl in H.
    assert (L : (list_to_map rest : gmap string PluginWrapper) !! n = None)
      by (apply not_elem_of_list_to_map_1, Nn).
    destruct (CreateWithError w) as [p0|err] eqn:C;
      [destruct (as_decoder p0) as [d|] eqn:Ad; [|discriminate H]|].
    + destruct (IH ND _ _ _ _ H) as [A B]. split.
      * intros k. rewrite A. rewrite list_to_map_cons.
        destruct (decide (k = n)) as [->|Hne].
        -- rewrite L, !lookup_insert_eq, C, Ad. reflexivity.
        -- rewrite !lookup_insert_ne by congruence. reflexivity.
      * intros n' err'. rewrite B. split; intros [G|(w' & G & E)]; auto.
        -- right. exists w'. split; [right; exact G | exact E].
        -- apply elem_of_cons in G as [G|G]; [congruence|].
           right. exists w'. auto.
    + destruct (IH ND _ _ _ _ H) as [A B]. split.
      * intros k. rewrite A. rewrite list_to_map_cons.
        destruct (decide (k = n)) as [->|Hne].
        -- rewrite L, !lookup_insert_eq, C. reflexivity.
        -- rewrite !lookup_insert_ne by congruence. reflexivity.
      * intros n' err'. rewrite B, elem_of_app, list_elem_of_singleton.
        split.
        -- intros [[G|G]|(w' & G & E)]; auto.
           ++ injection G as -> ->. right. exists w. split; [left|exact C].
           ++ right. exists w'. split; [right; exact G | exact E].
        -- intros [G|(w' & G & E)]; auto.
           apply elem_of_cons in G as [G|G].
           ++ injection G as -> ->. left. right. congruence.
           ++ right. exists w'. auto.
Qed.

Lemma init_filters_spec (ws : list (string * PluginWrapper)) :
  NoDup ws.*1 ->
  forall acc logs r logs',
    init_filters ws acc logs = Ret (r, logs') ->
    (forall k, r !! k
               = match (list_to_map ws : gmap string PluginWrapper) !! k with
                 | Some w =>
                   match CreateWithError w with
                   | inl p => as_filter p
                   | inr _ => acc !! k
                   end
                 | None => acc !! k
                 end) /\
    (forall n err, InitError n err ∈ logs' <->
                   InitError n err ∈ logs \/
                   exists w, (n, w) ∈ ws /\ CreateWithError w = inr err).
Proof.
  induction ws as [|[n w] rest IH]; intros ND acc logs r logs' H.
  - simpl in H. injection H as <- <-. split; [intros k; reflexivity|].
    intros n err. split; [auto|]. intros [H|(w & H & _)]; [exact H | inversion H].
  - simpl in ND. apply NoDup_cons in ND as [Nn ND]. simpl in H.
    assert (L : (list_to_map rest : gmap string PluginWrapper) !! n = None)
      by (apply not_elem_of_list_to_map_1, Nn).
    destruct (CreateWithError w) as [p0|err] eqn:C;
      [destruct (as_filter p0) as [d|] eqn:Ad; [|discriminate H]|].
    + destruct (IH ND _ _ _ _ H) as [A B]. split.
      * intros k. rewrite A. rewrite list_to_map_cons.
        destruct (decide (k = n)) as [->|Hne].
        -- rewrite L, !lookup_insert_eq, C, Ad. reflexivity.
        -- rewrite !lookup_insert_ne by congruence. reflexivity.
      * intros n' err'. rewrite B. split; intros [G|(w' & G & E)]; auto.
        -- right. exists w'. split; [right; exact G | exact E].
        -- apply elem_of_cons in G as [G|G]; [congruence|].
           right. exists w'. auto.
    + destruct (IH ND _ _ _ _ H) as [A B]. split.
      * intros k. rewrite A. rewrite list_to_map_cons.
        destruct (decide (k = n)) as [->|Hne].
        -- rewrite L, !lookup_insert_eq, C. reflexivity.
        -- rewrite !lookup_insert_ne by congruence. reflexivity.
      * intros n' err'. rewrite B, elem_of_app, list_elem_of_singleton.
        split.
        -- intros [[G|G]|(w' & G & E)]; auto.
           ++ injection G as -> ->. right. exists w. split; [left|exact C].
           ++ right. exists w'. split; [right; exact G | exact E].
        -- intros [G|(w' & G & E)]; auto.
           apply elem_of_cons in G as [G|G].
           ++ injection G as -> ->. left. right. congruence.
           ++ right. exists w'. auto.
Qed.

Lemma range_NoDup {V} (m : gmap string V) : NoDup (range (order env) m).*1.
Proof. rewrite (range_perm (order env)). apply NoDup_fst_map_to_list. Qed.

Lemma range_to_map {V} (m : gmap string V) :
  (list_to_map (range (order env) m) : gmap string V) = m.
Proof.
  rewrite (list_to_map_proper _ _ (range_NoDup m) (range_perm (order env) V m)).
  apply list_to_map_to_list.
Qed.

Lemma range_elem {V} (m : gmap string V) (k : string) (v : V) :
  (k, v) ∈ range (order env) m <-> m !! k = Some v.
Proof. rewrite (range_perm (order env)). apply elem_of_map_to_list. Qed.

Lemma init_outputs_lookup (l : list (string * Chan)) (acc : gmap string Chan)
    (k : string) :
  NoDup l.*1 ->
  init_outputs l acc !! k
  = match (list_to_map l : gmap string Chan) !! k with
    | Some c => Some c
    | None => acc !! k
    end.
Proof.
  unfold init_outputs. revert acc. induction l as [|[n c] rest IH]; intros acc ND.
  - reflexivity.
  - simpl in ND. apply NoDup_cons in ND as [Nn ND].
    rewrite list_to_map_cons. cbn [foldl fst snd]. rewrite (IH _ ND).
    destruct (decide (k = n)) as [->|Hne].
    + rewrite (not_elem_of_list_to_map_1 _ _ Nn), !lookup_insert_eq. reflexivity.
    + rewrite !lookup_insert_ne by congruence. reflexivity.
Qed.

Lemma make_full {A} (zero : A) (n : nat) : full (make zero n n) = make zero n n.
Proof.
  unfold full, reslice, cap, make. simpl.
  rewrite Nat.sub_diag. simpl. rewrite app_nil_r, Nat.add_0_r.
  rewrite length_replicate, take_ge, drop_ge by (rewrite length_replicate; lia).
  reflexivity.
Qed.

(** X19: A pack as [NewPipelinePack] returns it.  It has a decoder, or a filter,
    under exactly the names whose wrapper created one, the others having
    been logged with their error; it has the channel of every output
    runner; and it is in the state [Zero] restores, so that a fresh pack
    and a recycled one differ by their message only. *)
Theorem NewPipelinePack_fresh (config : Cfg.t) (size a : nat) (p : PipelinePack)
    (logs : list InitLine) :
  NewPipelinePack config size a = Ret (p, logs) ->
  (forall n, Decoders p !! n = created as_decoder (Cfg.Decoders config !! n)) /\
  (forall n, Filters p !! n = created as_filter (Cfg.Filters config !! n)) /\
  (forall n err, InitError n err ∈ logs <->
                 fails (Cfg.Decoders config) n err \/ fails (Cfg.Filters config) n err) /\
  OutputChans p = Cfg.OutputRunners config /\
  len (MsgBytes p) = size /\
  Zero env p = p.
Proof.
  unfold NewPipelinePack. intros H.
  destruct (init_decoders _ ∅ []) as [[ds l1]|] eqn:Ed; [|discriminate].
  destruct (init_filters _ ∅ l1) as [[fs l2]|] eqn:Ef; [|discriminate].
  injection H as <- <-.
  destruct (init_decoders_spec _ (range_NoDup _) _ _ _ _ Ed) as [Dl Dg].
  destruct (init_filters_spec _ (range_NoDup _) _ _ _ _ Ef) as [Fl Fg].
  cbn [Decoders Filters OutputChans MsgBytes].
  split; [|split; [|split; [|split; [|split]]]].
  - intros n. rewrite Dl, range_to_map, lookup_empty. unfold created.
    destruct (Cfg.Decoders config !! n) as [w|]; [|reflexivity].
    destruct (CreateWithError w) as [p0|err]; reflexivity.
  - intros n. rewrite Fl, range_to_map, lookup_empty. unfold created.
    destruct (Cfg.Filters config !! n) as [w|]; [|reflexivity].
    destruct (CreateWithError w) as [p0|err]; reflexivity.
  - intros n err. rewrite Fg, Dg. unfold fails. split.
    + intros [[G|(w & G & E)]|(w & G & E)].
      * inversion G.
      * left. exists w. split; [apply range_elem, G | exact E].
      * right. exists w. split; [apply range_elem, G | exact E].
    + intros [(w & G & E)|(w & G & E)].
      * left. right. exists w. split; [apply range_elem, G | exact E].
      * right. exists w. split; [apply range_elem, G | exact E].
  - apply map_eq. intros k.
    rewrite init_outputs_lookup by apply range_NoDup.
    rewrite range_to_map, lookup_empty.
    destruct (Cfg.OutputRunners config !! k); reflexivity.
  - unfold len, make. simpl. apply length_replicate.
  - unfold Zero. simpl. rewrite make_full, (delete_all_empty env). reflexivity.
Qed.

(** *** The filter stage, by its trace *)

Lemma world_eta (w : World PS) :
  mkWorld (pack w) (plugins w) (trace w) (next_addr w) = w.
Proof. destruct w; reflexivity. Qed.

Lemma sends_app (a b : list Event) : sends (a ++ b) = sends a ++ sends b.
Proof. apply omap_app. Qed.

Lemma filtered_app (a b : list Event) : filtered (a ++ b) = filtered a ++ filtered b.
Proof. apply omap_app. Qed.

Lemma safe_filter_trace (n : string) (f : option FilterPlugin) (w : World PS) :
  exists w' evs,
    safe_filter env n f w = Returned tt w' /\
    trace w' = trace w ++ evs /\ sends evs = [] /\
    filtered evs = match f with Some _ => [n] | None => [] end /\
    (f = None ->
     w' = mkWorld (with_Blocked true (pack w)) (plugins w)
            (trace w ++ [EvLog (FilterPanic n)]) (next_addr w)).
Proof.
  unfold safe_filter, recovering, call_FilterMsg, panic.
  destruct f as [f|].
  - destruct (FilterMsg env f (pack w) (plugins w)) as [[] [p s]|[p s]].
    + eexists _, [EvFilterMsg n f]. repeat split. discriminate.
    + eexists _, [EvFilterMsg n f; EvLog (FilterPanic n)].
      unfold bind, log, emit, modify_pack. simpl. rewrite <- app_assoc.
      repeat split. discriminate.
  - eexists _, [EvLog (FilterPanic n)].
    unfold bind, log, emit, modify_pack. simpl. repeat split.
Qed.

Lemma run_filters_trace (fs : list string) (w : World PS) :
  exists w' evs,
    run_filters env fs w = Returned tt w' /\
    trace w' = trace w ++ evs /\ sends evs = [] /\
    filtered evs `prefix_of` fs /\
    (Blocked (pack w') = false -> filtered evs = fs).
Proof.
  revert w. induction fs as [|n rest IH]; intros w.
  - exists w, []. simpl. rewrite app_nil_r. repeat split. apply prefix_nil.
  - destruct (safe_filter_trace n (Filters (pack w) !! n) w)
      as (w1 & evs1 & H1 & T1 & S1 & F1 & N1).
    rewrite (run_filters_cons env _ _ _ _ H1).
    destruct (Blocked (pack w1)) eqn:B.
    + exists w1, evs1. repeat split; [exact T1 | exact S1 | | congruence].
      rewrite F1. destruct (Filters (pack w) !! n);
        [apply prefix_cons, prefix_nil | apply prefix_nil].
    + destruct (Filters (pack w) !! n) as [f|] eqn:L;
        [|rewrite (N1 eq_refl) in B; discriminate B].
      destruct (IH w1) as (w2 & evs2 & H2 & T2 & S2 & F2 & A2).
      exists w2, (evs1 ++ evs2). rewrite H2.
      rewrite sends_app, filtered_app, S1, S2, F1, T2, T1, app_assoc.
      repeat split.
      * apply prefix_cons, F2.
      * intros B2. simpl. f_equal. apply A2, B2.
Qed.

Lemma run_filters_app (pre rest : list string) (w w1 : World PS) :
  run_filters env pre w = Returned tt w1 ->
  Blocked (pack w1) = false ->
  run_filters env (pre ++ rest) w = run_filters env rest w1.
Proof.
  revert w. induction pre as [|n pre IH]; intros w H B.
  - simpl in H. unfold ret in H. injection H as <-. reflexivity.
  - destruct (safe_filter_returns env n (Filters (pack w) !! n) w) as [w0 H0].
    simpl app. rewrite (run_filters_cons env n pre w w0 H0) in H.
    rewrite (run_filters_cons env n (pre ++ rest) w w0 H0).
    destruct (Blocked (pack w0)) eqn:B0.
    + injection H as <-. congruence.
    + apply IH; assumption.
Qed.

(** The state in which [filterProcessor] reaches its chain: a new
    [OutputNames] map, and the chain name the lookup found, if any. *)
Lemma filterProcessor_unfold (w : World PS) :
  exists p0,
    Config p0 = Config (pack w) /\ Filters p0 = Filters (pack w) /\
    OutputChans p0 = OutputChans (pack w) /\ Blocked p0 = Blocked (pack w) /\
    Decoded p0 = Decoded (pack w) /\
    OutputNames p0 = mkNameSet (next_addr w) ∅ /\
    FilterChain p0 = chain_name (pack w) /\
    filterProcessor env w
    = let w0 := mkWorld p0 (plugins w) (trace w) (S (next_addr w)) in
      match Cfg.FilterChains (Config (pack w)) !! chain_name (pack w) with
      | None => log (ChainMissing (chain_name (pack w))) w0
      | Some chain =>
        bind (seed_outputs (Chain.Outputs chain))
          (fun _ => run_filters env (Chain.Filters chain)) w0
      end.
Proof.
  unfold filterProcessor, chain_name.
  unfold bind at 1, new_NameSet. unfold bind at 1, modify_pack.
  unfold bind at 1, get_pack. cbn [pack plugins trace next_addr].
  cbn [with_OutputNames Config Message FilterChain].
  destruct (Cfg.Lookup (Config (pack w)) (Message (pack w))) as [located ok].
  destruct ok.
  - exists (with_FilterChain located
              (with_OutputNames (mkNameSet (next_addr w) ∅) (pack w))).
    repeat split. unfold bind at 1, modify_pack. cbn [pack plugins trace next_addr].
    destruct (Cfg.FilterChains _ !! _); reflexivity.
  - exists (with_OutputNames (mkNameSet (next_addr w) ∅) (pack w)).
    repeat split. unfold bind at 1, ret.
    destruct (Cfg.FilterChains _ !! _); reflexivity.
Qed.

Lemma seed_outputs_spec (outputs : list string) (w : World PS) :
  exists p',
    seed_outputs outputs w
    = Returned tt (mkWorld p' (plugins w) (trace w) (next_addr w)) /\
    Config p' = Config (pack w) /\ Filters p' = Filters (pack w) /\
    OutputChans p' = OutputChans (pack w) /\ Blocked p' = Blocked (pack w) /\
    entries (OutputNames p')
    = foldl (fun acc n => <[n := true]> acc) (entries (OutputNames (pack w))) outputs.
Proof.
  revert w. induction outputs as [|n rest IH]; intros w.
  - exists (pack w). simpl. unfold ret. rewrite world_eta. repeat split.
  - simpl. unfold bind at 1, modify_pack.
    match goal with
    | |- context [seed_outputs rest ?w1] =>
      destruct (IH w1) as (p' & H & C & F & O & B & E)
    end.
    exists p'. rewrite H. simpl in *. repeat split; assumption.
Qed.

Lemma seeded_lookup (outputs : list string) (acc : gmap string bool) (k : string) :
  foldl (fun acc n => <[n := true]> acc) acc outputs !! k
  = if decide (k ∈ outputs) then Some true else acc !! k.
Proof.
  revert acc. induction outputs as [|n rest IH]; intros acc; simpl.
  - reflexivity.
  - rewrite IH. destruct (decide (k ∈ rest)) as [I|I].
    + rewrite decide_True by (right; exact I). reflexivity.
    + destruct (decide (k = n)) as [->|Hne].
      * rewrite decide_True by left. apply lookup_insert_eq.
      * rewrite decide_False by (intros G; apply elem_of_cons in G as [G|G]; auto).
        apply lookup_insert_ne. congruence.
Qed.

Lemma seeded_to_list (outputs : list string) :
  map_to_list (foldl (fun acc n => <[n := true]> acc) (∅ : gmap string bool) outputs)
  ≡ₚ (fun n => (n, true)) <$> distinct outputs.
Proof.
  unfold distinct. apply NoDup_Permutation.
  - apply NoDup_map_to_list.
  - apply NoDup_fmap_2; [intros x y E; congruence | apply NoDup_elements].
  - intros [k b]. rewrite elem_of_map_to_list, seeded_lookup, lookup_empty.
    rewrite list_elem_of_fmap. split.
    + destruct (decide (k ∈ outputs)) as [I|I]; [|discriminate].
      intros E. injection E as <-. exists k. split; [reflexivity|].
      apply elem_of_elements, elem_of_list_to_set, I.
    + intros (n & E & I). injection E as -> ->.
      apply elem_of_elements, elem_of_list_to_set in I.
      rewrite decide_True by exact I. reflexivity.
Qed.

(** X20: [filterProcessor] on a pack whose chain exists invokes filters of the
    chain only, in the order of the chain, each at most once and none
    skipped: the filters invoked are a prefix of the chain, and the whole
    chain when the pack comes out not blocked.  It sends the pack
    nowhere. *)
Theorem filters_run_in_chain_order (w : World PS) (chain : Chain.t) :
  Cfg.FilterChains (Config (pack w)) !! chain_name (pack w) = Some chain ->
  exists w' evs,
    filterProcessor env w = Returned tt w' /\
    trace w' = trace w ++ evs /\
    sends evs = [] /\
    filtered evs `prefix_of` Chain.Filters chain /\
    (Blocked (pack w') = false -> filtered evs = Chain.Filters chain).
Proof.
  intros Hc. destruct (filterProcessor_unfold w) as (p0 & _ & _ & _ & _ & _ & _ & _ & E).
  rewrite E, Hc. cbv zeta. unfold bind.
  match goal with
  | |- context [seed_outputs ?o ?w0] =>
    destruct (seed_outputs_spec o w0) as (p1 & -> & _)
  end.
  cbn [plugins trace next_addr].
  match goal with
  | |- context [run_filters env ?fs ?w1] =>
    destruct (run_filters_trace fs w1) as (w' & evs & H & T & S & P & A)
  end.
  exists w', evs. auto.
Qed.

(** X21: A chain that names a filter the pack has no plugin for: when the
    filters before it leave the pack not blocked, the call on the missing
    filter panics, the panic is recovered and logged, the pack is blocked
    and the rest of the chain does not run. *)
Theorem unknown_filter_blocks (pre post : list string) (f : string)
    (w w1 : World PS) :
  run_filters env pre w = Returned tt w1 ->
  Blocked (pack w1) = false ->
  Filters (pack w1) !! f = None ->
  run_filters env (pre ++ f :: post) w
  = Returned tt
      (mkWorld (with_Blocked true (pack w1)) (plugins w1)
         (trace w1 ++ [EvLog (FilterPanic f)]) (next_addr w1)).
Proof.
  intros H B L. rewrite (run_filters_app pre (f :: post) w w1 H B).
  destruct (safe_filter_trace f (Filters (pack w1) !! f) w1)
    as (w2 & evs & H2 & _ & _ & _ & N).
  rewrite (run_filters_cons env _ _ _ _ H2).
  rewrite L in N. rewrite (N eq_refl). reflexivity.
Qed.

(** *** The dispatcher end to end *)

Lemma filterProcessor_trace (w : World PS) :
  exists w' evs,
    filterProcessor env w = Returned tt w' /\
    trace w' = trace w ++ evs /\ sends evs = [].
Proof.
  destruct (filterProcessor_unfold w) as (p0 & _ & _ & _ & _ & _ & _ & _ & E).
  rewrite E. cbv zeta.
  destruct (Cfg.FilterChains _ !! _) as [chain|].
  - unfold bind.
    match goal with
    | |- context [seed_outputs ?o ?w0] =>
      destruct (seed_outputs_spec o w0) as (p1 & -> & _)
    end.
    cbn [plugins trace next_addr].
    match goal with
    | |- context [run_filters env ?fs ?w1] =>
      destruct (run_filters_trace fs w1) as (w' & evs & H & T & S & _)
    end.
    exists w', evs. auto.
  - eexists _, [_]. unfold log, emit. simpl. repeat split.
Qed.

Lemma filter_and_deliver_trace (w : World PS) :
  exists recycle w' evs,
    filter_and_deliver env w = Returned recycle w' /\
    trace w' = trace w ++ evs /\
    (recycle = true <-> sends evs = []).
Proof.
  destruct (filterProcessor_trace w) as (w1 & evs1 & H1 & T1 & S1).
  unfold filter_and_deliver. unfold bind at 1. rewrite H1.
  unfold bind at 1, get_pack.
  destruct (Blocked (pack w1)).
  - exists true, w1, evs1. unfold ret. repeat split; auto.
  - destruct (deliver_spec (range (order env) (entries (OutputNames (pack w1)))) 0 w1)
      as (evs2 & H2 & S2 & _).
    unfold bind. rewrite H2. unfold ret.
    eexists _, _, (evs1 ++ evs2). split; [reflexivity|]. split.
    + simpl. rewrite T1, app_assoc. reflexivity.
    + rewrite sends_app, S1, S2. simpl. rewrite Nat.eqb_eq.
      split; [apply nil_length_inv | intros ->; reflexivity].
Qed.

(** X22: No pack is lost or doubled by the dispatcher: whenever [pipeline]
    returns, whatever the pack, the configuration and the plugins, it
    returns recycle=true exactly when it has sent the pack on no output
    channel; and the arm of [Run] that called it then puts the zeroed pack
    on [recycleChan], and sends nothing more otherwise. *)
Theorem pipeline_recycles_or_sends (w w' : World PS) (recycle : bool) :
  pipeline env w = Returned recycle w' ->
  exists evs,
    trace w' = trace w ++ evs /\
    (recycle = true <-> sends evs = []) /\
    forall recycleChan,
      Run_dataChan env recycleChan w
      = Returned tt
          (if recycle
           then mkWorld (Zero env (pack w')) (plugins w')
                  (trace w' ++ [EvSend recycleChan]) (next_addr w')
           else w').
Proof.
  intros H.
  assert (R : forall rc,
             Run_dataChan env rc w
             = Returned tt
                 (if recycle
                  then mkWorld (Zero env (pack w')) (plugins w')
                         (trace w' ++ [EvSend rc]) (next_addr w')
                  else w')).
  { intros rc. unfold Run_dataChan. unfold bind at 1. rewrite H.
    destruct recycle; reflexivity. }
  cut (exists evs, trace w' = trace w ++ evs /\ (recycle = true <-> sends evs = [])).
  { intros (evs & T & S). exists evs. auto. }
  clear R. revert H. unfold pipeline. unfold bind at 1, get_pack.
  destruct (Decoded (pack w)); cbn [negb].
  - intros H. destruct (filter_and_deliver_trace w) as (r & w2 & evs & E & T & S).
    rewrite E in H. injection H as -> ->. exists evs. auto.
  - destruct (Decoders (pack w) !! Decoder (pack w)) as [d|].
    + unfold bind at 1, call_Decode.
      destruct (Decode env d (pack w) (plugins w)) as [[e|] [p s]|[p s]];
        [| |discriminate].
      * unfold bind, log, emit, ret. simpl. intros H. injection H as <- <-.
        eexists [_; _]. simpl. rewrite <- app_assoc.
        split; [reflexivity|]. split; reflexivity.
      * unfold bind at 1, modify_pack. cbn [pack plugins trace next_addr].
        intros H.
        match type of H with
        | filter_and_deliver env ?w0 = _ =>
          destruct (filter_and_deliver_trace w0) as (r & w2 & evs & E & T & S)
        end.
        rewrite E in H. injection H as -> ->.
        exists (EvDecode d :: evs). simpl in T. rewrite T, <- app_assoc.
        split; [reflexivity|]. exact S.
    + unfold bind, log, emit, ret. simpl. intros H. injection H as <- <-.
      eexists [_]. split; [reflexivity|]. split; reflexivity.
Qed.

(** X23: A decoded pack whose chain is not in the configuration: the dispatcher
    logs the missing chain, invokes no filter, sends the pack nowhere and
    returns recycle=true (also when the pack has outputs left from an
    earlier run: [filterProcessor] starts from a new, empty set). *)
Theorem unknown_chain_recycles (w : World PS) :
  Decoded (pack w) = true ->
  Cfg.FilterChains (Config (pack w)) !! chain_name (pack w) = None ->
  exists w',
    pipeline env w = Returned true w' /\
    trace w' = trace w ++ [EvLog (ChainMissing (chain_name (pack w)))] /\
    entries (OutputNames (pack w')) = ∅ /\
    addr (OutputNames (pack w')) = next_addr w.
Proof.
  intros Hd Hc.
  destruct (filterProcessor_unfold w) as (p0 & _ & _ & _ & _ & _ & N & _ & E).
  rewrite Hc in E. cbv zeta in E. unfold log, emit in E. simpl in E.
  eexists. split.
  - unfold pipeline. unfold bind at 1, get_pack. rewrite Hd. cbn [negb].
    unfold filter_and_deliver. unfold bind at 1. rewrite E.
    unfold bind at 1, get_pack. cbn [pack].
    destruct (Blocked p0); [reflexivity|].
    rewrite N. cbn [entries].
    assert (Z : range (order env) (∅ : gmap string bool) = []).
    { apply Permutation_nil_r. rewrite (range_perm (order env)).
      rewrite map_to_list_empty. reflexivity. }
    rewrite Z. reflexivity.
  - cbn [pack trace]. rewrite N. destruct (Blocked p0); repeat split.
Qed.

(** X24: A decoded, unblocked pack on a chain without filters is sent once on
    the channel of each output the chain lists (once also for an output
    listed twice) that has a channel; the outputs the pack held before do
    not count. *)
Theorem pipeline_delivers_to_chain_outputs (w : World PS) (chain : Chain.t) :
  Decoded (pack w) = true ->
  Blocked (pack w) = false ->
  Cfg.FilterChains (Config (pack w)) !! chain_name (pack w) = Some chain ->
  Chain.Filters chain = [] ->
  exists w' evs,
    pipeline env w = Returned (Nat.eqb (length (sends evs)) 0) w' /\
    trace w' = trace w ++ evs /\
    sends evs ≡ₚ omap (fun n => OutputChans (pack w) !! n)
                   (distinct (Chain.Outputs chain)) /\
    filtered evs = [].
Proof.
  intros Hd Hb Hc Hf.
  destruct (filterProcessor_unfold w) as (p0 & _ & _ & O0 & B0 & _ & N0 & _ & E).
  rewrite Hc, Hf in E. cbv zeta in E. unfold bind in E.
  match type of E with
  | context [seed_outputs ?o ?w0] =>
    destruct (seed_outputs_spec o w0) as (p1 & S1 & _ & _ & O1 & B1 & E1)
  end.
  rewrite S1 in E. simpl in E, O1, B1, E1. unfold ret in E.
  rewrite N0 in E1. cbn [entries] in E1.
  set (w1 := mkWorld p1 (plugins w) (trace w) (S (next_addr w))) in *.
  destruct (deliver_spec (range (order env) (entries (OutputNames (pack w1)))) 0 w1)
    as (evs & H & Hs & _ & Hdl).
  exists (add_trace evs w1), evs. split; [|split; [|split]].
  - unfold pipeline. unfold bind at 1, get_pack. rewrite Hd. cbn [negb].
    unfold filter_and_deliver. unfold bind at 1. rewrite E.
    unfold bind at 1, get_pack.
    replace (Blocked (pack w1)) with false by (subst w1; simpl; congruence).
    unfold bind. rewrite H. unfold ret. rewrite Hs. reflexivity.
  - reflexivity.
  - rewrite Hs. unfold targets. subst w1. cbn [pack].
    rewrite (omap_Permutation _ _ _ (range_perm (order env) _ _)).
    rewrite E1, seeded_to_list. rewrite O1, O0.
    clear. induction (distinct (Chain.Outputs chain)) as [|n l IH]; [reflexivity|].
    simpl. destruct (OutputChans (pack w) !! n); [constructor|]; exact IH.
  - clear -Hdl. induction Hdl as [|e evs He _ IH]; [reflexivity|].
    destruct e as [[]| | | | |]; simpl in *; try contradiction; exact IH.
Qed.

End Dispatch.

Lemma NewPipelinePack_fresh_witness :
  match NewPipelinePack demo_env demo_create demo_config 8 0 with
  | Ret (p, logs) =>
    Decoders p !! "json" = Some 0 /\ Filters p !! "buggy" = None /\
    InitError "buggy" "no such file" ∈ logs /\
    OutputChans p = {[ "log" := 100 ]} /\ Zero demo_env p = p
  | Panic => False
  end.
Proof.
  destruct (NewPipelinePack demo_env demo_create demo_config 8 0) as [[p logs]|] eqn:E;
    [|vm_compute in E; discriminate E].
  destruct (NewPipelinePack_fresh demo_env demo_create _ _ _ _ _ E)
    as (D & F & L & O & _ & Z).
  split; [rewrite D; reflexivity|]. split; [rewrite F; reflexivity|].
  split; [|split; [exact O | exact Z]].
  apply L. right. exists (mkWrapper "buggy" (Some 0)). split; reflexivity.
Defined.

Lemma filters_run_in_chain_order_witness :
  exists w' evs,
    filterProcessor demo_env (demo_world "json" true "blocking") = Returned tt w' /\
    trace w' = evs /\ sends evs = [] /\
    filtered evs `prefix_of` ["pass"; "block"; "pass"] /\
    (Blocked (pack w') = false -> filtered evs = ["pass"; "block"; "pass"]).
Proof.
  apply (filters_run_in_chain_order demo_env (demo_world "json" true "blocking")
           (Chain.mk ["pass"; "block"; "pass"] ["log"])).
  reflexivity.
Defined.

Lemma unknown_filter_blocks_witness :
  run_filters demo_env (["pass"] ++ "nope" :: ["pass"]) (demo_world "json" true "default")
  = Returned tt
      (mkWorld (with_Blocked true (demo_pack "json" true "default")) 1
         [EvFilterMsg "pass" 0; EvLog (FilterPanic "nope")] 1).
Proof.
  apply (unknown_filter_blocks demo_env ["pass"] ["pass"] "nope"
           (demo_world "json" true "default")
           (mkWorld (demo_pack "json" true "default") 1 [EvFilterMsg "pass" 0] 1));
    reflexivity.
Defined.

Lemma pipeline_recycles_or_sends_witness :
  exists evs,
    trace (state_of (pipeline demo_env (demo_world "json" true "default"))) = evs /\
    (false = true <-> sends evs = []).
Proof.
  destruct (pipeline_recycles_or_sends demo_env (demo_world "json" true "default")
              (state_of (pipeline demo_env (demo_world "json" true "default"))) false)
    as (evs & T & S & _); [vm_compute; reflexivity|].
  exists evs. split; [exact T | exact S].
Defined.

Lemma unknown_chain_recycles_witness :
  exists w',
    pipeline demo_env (demo_world "json" true "missing") = Returned true w' /\
    trace w' = [EvLog (ChainMissing "missing")] /\
    entries (OutputNames (pack w')) = ∅ /\
    addr (OutputNames (pack w')) = 1.
Proof.
  apply (unknown_chain_recycles demo_env (demo_world "json" true "missing"));
    reflexivity.
Defined.

Lemma pipeline_delivers_to_chain_outputs_witness :
  exists w' evs,
    pipeline demo_env direct_world = Returned (Nat.eqb (length (sends evs)) 0) w' /\
    trace w' = evs /\
    sends evs ≡ₚ omap (fun n => OutputChans (pack direct_world) !! n)
                   (distinct ["log"; "file"; "log"]) /\
    filtered evs = [].
Proof.
  apply (pipeline_delivers_to_chain_outputs demo_env direct_world
           (Chain.mk [] ["log"; "file"; "log"])); reflexivity.
Defined.

End PipelineOps.

(** ** runner.go: the pool of scratch objects and the worker goroutines *)

Module RunnerOps.
Import Go Runner.

(** What the worker goroutines log. *)
Inductive WorkerLine : Type :=
| WriterPanic
| OutputWriterError (err : error)
| CommitError (err : error).

(** The [Writer] and the [BatchWriter] a Runner drives.  The writer is the
    [DataRecycler] itself ([g.Recycler = self.Writer.(DataRecycler)]), so
    its methods, [MakeOutData] of the recycler among them, share the
    plugin's state. *)
Record Writer (D PS : Type) : Type := mkWriter {
  MakeOutData : PS -> result PS D;
  Write : D -> PS -> result (D * PS) (option error)
}.
Arguments MakeOutData {D PS} _.
Arguments Write {D PS} _.

Record BatchWriter (D PS : Type) : Type := mkBatchWriter {
  Batch : D -> PS -> result (D * PS) (option error);
  Commit : PS -> result PS (option error)
}.
Arguments Batch {D PS} _.
Arguments Commit {D PS} _.

(** A writer for examples, over the scratch and the state of
    [demo_recycler]: [Write] and [Batch] behave by their mood, [Commit]
    returns an error. *)
Definition demo_writer (mood : Mood) : Writer nat nat :=
  mkWriter nat nat
    (fun calls => Returned 0 (S calls))
    (fun d calls =>
       match mood with
       | Works => Returned None (d, S calls)
       | Fails => Returned (Some "disk full") (d, S calls)
       | Crashes => Panicked (d, S calls)
       end).

Definition demo_batchwriter (mood : Mood) : BatchWriter nat nat :=
  mkBatchWriter nat nat
    (fun d calls =>
       match mood with
       | Works => Returned None (d, S calls)
       | Fails => Returned (Some "disk full") (d, S calls)
       | Crashes => Panicked (d, S calls)
       end)
    (fun calls => Returned (Some "commit failed") (S calls)).

(** A Runner at work: the scratch 1, filled, waits on the data channel. *)
Definition busy_state : State nat nat :=
  mkState (Some (mkOutData 1 5)) (mkChan [mkOutData 1 5] 1)
    (mkChan [mkOutData 2 0] 1) 0 [].

Section Workers.
Context {D PS : Type} (Recycler : DataRecycler D PS).
Context (W : Writer D PS) (BW : BatchWriter D PS).

Notation "x <- m ;; k" := (bind m (fun x => k))
  (at level 100, m at next level, k at level 200, right associativity).
Notation "m ;; k" := (bind m (fun _ => k))
  (at level 100, k at level 200, right associativity).

(** A Runner as [InitOnce] sets it up before it fills the pool: two
    channels of capacity [2*PoolSize], both empty. *)
Definition init_state (ps : PS) (PoolSize : nat) : State D PS :=
  mkState None (mkChan [] (2 * PoolSize)) (mkChan [] (2 * PoolSize)) ps [].



(** [outData = <-self.global.dataChan] *)
Definition recv_dataChan : R (OutData D) :=
  fun s : State D PS =>
    match buf (dataChan s) with
    | [] => Parked s
    | o :: rest =>
      Done o (mkState (outData s) (mkChan rest (S (free (dataChan s))))
                (recycleChan s) (recycler s) (logged s))
    end.

(** What [self.outData] refers to once the object [o'] has been written:
    the worker's scratch is a local variable, which [self.outData] may or
    may not alias. *)
Definition refresh (o' : OutData D) (cur : option (OutData D)) : option (OutData D) :=
  match cur with
  | Some c => if Nat.eqb (oid c) (oid o') then Some o' else cur
  | None => None
  end.

(** A plugin call on the scratch [o]. *)
Definition on_object {A} (o : OutData D) (f : D -> PS -> result (D * PS) A)
    : R (A * OutData D) :=
  fun s : State D PS =>
    match f (content o) (recycler s) with
    | Returned a (d, ps) =>
      let o' := mkOutData (oid o) d in
      Done (a, o')
        (mkState (refresh o' (outData s)) (dataChan s) (recycleChan s) ps (logged s))
    | Panicked (d, ps) =>
      let o' := mkOutData (oid o) d in
      Panics
        (mkState (refresh o' (outData s)) (dataChan s) (recycleChan s) ps (logged s))
    end.

(** [self.RecycleOutData(outData)] as the workers call it, on their local
    scratch. *)
Definition RecycleOutData_local (o : OutData D) : R unit :=
  recovering
    (r <- on_object o (ZeroOutData Recycler) ;;
     send_recycleChan (snd r))
    (log ZeroOutDataFailed).

(** [safe_writer]: the result of [Write]; after a panic the handler logs
    and the function returns the zero value of its result, nil.  The
    second component is what it logged, the third the scratch as [Write]
    left it. *)
Definition safe_writer (o : OutData D)
    : R (option error * list WorkerLine * OutData D) :=
  fun s : State D PS =>
    match Write W (content o) (recycler s) with
    | Returned err (d, ps) =>
      let o' := mkOutData (oid o) d in
      Done (err, [], o')
        (mkState (refresh o' (outData s)) (dataChan s) (recycleChan s) ps (logged s))
    | Panicked (d, ps) =>
      let o' := mkOutData (oid o) d in
      Done (None, [WriterPanic], o')
        (mkState (refresh o' (outData s)) (dataChan s) (recycleChan s) ps (logged s))
    end.

(** The arm [case outData = <-self.global.dataChan] of the loop of
    [runner]; the result is what the worker logged before it recycled. *)
Definition runner_step : R (list WorkerLine) :=
  o <- recv_dataChan ;;
  r <- safe_writer o ;;
  let '(err, lines, o') := r in
  let lines := lines ++ match err with
                        | Some e => [OutputWriterError e]
                        | None => []
                        end in
  RecycleOutData_local o' ;;
  ret lines.

(** The same arm of the loop of [batch_runner]: [Batch] is called as it
    is. *)
Definition batch_runner_step : R (list WorkerLine) :=
  o <- recv_dataChan ;;
  r <- on_object o (Batch BW) ;;
  let lines := match fst r with
               | Some e => [OutputWriterError e]
               | None => []
               end in
  RecycleOutData_local (snd r) ;;
  ret lines.

(** [safe_batchwriter_commit]: [batchwriter.Commit()] is called for its
    effect, [err] is assigned in the handler only. *)
Definition safe_batchwriter_commit : R (option error) :=
  fun s : State D PS =>
    match Commit BW (recycler s) with
    | Returned _ ps =>
      Done None (mkState (outData s) (dataChan s) (recycleChan s) ps (logged s))
    | Panicked ps =>
      Done (Some "Error while calling commit on batchwriter")
        (mkState (outData s) (dataChan s) (recycleChan s) ps (logged s))
    end.

(** The arm [case <-self.global.ticker] of the loop of [batch_runner]. *)
Definition batch_runner_tick : R (list WorkerLine) :=
  err <- safe_batchwriter_commit ;;
  ret (match err with
       | Some e => [CommitError e]
       | None => []
       end).

(** The identities of the scratch objects on the two channels. *)
Definition pool (s : State D PS) : list nat :=
  (oid <$> buf (recycleChan s)) ++ (oid <$> buf (dataChan s)).

(** What [Write] leaves of the scratch and of the plugin's state, whether
    it returns or panics, and what the worker logs for it. *)
Definition written (d : D) (ps : PS) : D * PS :=
  match Write W d ps with
  | Returned _ x => x
  | Panicked x => x
  end.

Definition write_lines (d : D) (ps : PS) : list WorkerLine :=
  match Write W d ps with
  | Returned (Some e) _ => [OutputWriterError e]
  | Returned None _ => []
  | Panicked _ => [WriterPanic]
  end.

(** *** The pool *)



(** *** Handing a scratch over, and getting it back *)

(** X26: [Deliver], [FilterMsg] and [Read] block on an empty recycle channel
    before any plugin code runs.  With a scratch to claim and a
    [PrepOutData] that returns nil, the scratch, as [PrepOutData] filled
    it, goes to the end of the data channel; when that channel is full the
    call blocks holding the scratch. *)
Theorem Deliver_outcomes (pack : Pipeline.PipelinePack) (timeout : option Z)
    (s : State D PS) :
  (buf (recycleChan s) = [] ->
   Deliver Recycler pack s = Parked s /\ FilterMsg Recycler pack s = Parked s /\
   Read Recycler pack timeout s = Parked s) /\
  (forall o rest d ps,
     buf (recycleChan s) = o :: rest ->
     PrepOutData Recycler pack (content o) timeout (recycler s) = Returned None (d, ps) ->
     let o' := mkOutData (oid o) d in
     let held := mkState (Some o') (dataChan s)
                   (mkChan rest (S (free (recycleChan s)))) ps (logged s) in
     let sent n := mkState (Some o') (mkChan (buf (dataChan s) ++ [o']) n)
                     (mkChan rest (S (free (recycleChan s)))) ps (logged s) in
     Read Recycler pack timeout s
     = match free (dataChan s) with
       | O => Parked held
       | S n => Done None (sent n)
       end /\
     (timeout = None ->
      Deliver Recycler pack s
      = match free (dataChan s) with
        | O => Parked held
        | S n => Done tt (sent n)
        end /\
      FilterMsg Recycler pack s = Deliver Recycler pack s)).
Proof.
  split.
  - intros E. unfold Deliver, FilterMsg, Read, bind, claim_outData.
    rewrite E. auto.
  - intros o rest d ps E P. cbv zeta. split.
    + unfold Read, safe_prepoutdata, recovering, on_scratch, claim_outData,
        send_dataChan, current, bind, ret. rewrite E. simpl. rewrite P. simpl.
      destruct (free (dataChan s)); reflexivity.
    + intros ->. split; [|reflexivity].
      unfold Deliver, safe_prepoutdata, recovering, on_scratch, claim_outData,
        send_dataChan, current, bind, ret. rewrite E. simpl. rewrite P. simpl.
      destruct (free (dataChan s)); reflexivity.
Qed.

Lemma RecycleOutData_local_spec (o : OutData D) (s : State D PS) (n : nat) :
  free (recycleChan s) = S n ->
  RecycleOutData_local o s
  = match ZeroOutData Recycler (content o) (recycler s) with
    | Returned _ (z, ps) =>
      Done tt (mkState (refresh (mkOutData (oid o) z) (outData s)) (dataChan s)
                 (mkChan (buf (recycleChan s) ++ [mkOutData (oid o) z]) n) ps (logged s))
    | Panicked (z, ps) =>
      Done tt (mkState (refresh (mkOutData (oid o) z) (outData s)) (dataChan s)
                 (recycleChan s) ps (logged s ++ [ZeroOutDataFailed]))
    end.
Proof.
  intros F. unfold RecycleOutData_local, recovering, bind, on_object,
    send_recycleChan, log.
  destruct (ZeroOutData Recycler (content o) (recycler s)) as [[] [z ps]|[z ps]];
    simpl; rewrite ?F; reflexivity.
Qed.

Lemma runner_step_spec (s : State D PS) (o : OutData D)
    (rest : list (OutData D)) (n : nat) :
  buf (dataChan s) = o :: rest ->
  free (recycleChan s) = S n ->
  exists s',
    runner_step s = Done (write_lines (content o) (recycler s)) s' /\
    dataChan s' = mkChan rest (S (free (dataChan s))) /\
    let '(d, ps) := written (content o) (recycler s) in
    match ZeroOutData Recycler d ps with
    | Returned _ (z, ps') =>
      recycleChan s' = mkChan (buf (recycleChan s) ++ [mkOutData (oid o) z]) n /\
      logged s' = logged s /\ recycler s' = ps'
    | Panicked (z, ps') =>
      recycleChan s' = recycleChan s /\
      logged s' = logged s ++ [ZeroOutDataFailed] /\ recycler s' = ps'
    end.
Proof.
  intros E F. unfold runner_step, written, write_lines.
  unfold bind at 1, recv_dataChan. rewrite E.
  unfold bind at 1, safe_writer. cbn [recycler outData dataChan recycleChan logged].
  destruct (Write W (content o) (recycler s)) as [err [d ps]|[d ps]].
  - unfold bind at 1. erewrite RecycleOutData_local_spec by exact F.
    cbn [content oid recycler outData dataChan recycleChan logged buf].
    destruct (ZeroOutData Recycler d ps) as [[] [z ps']|[z ps']];
      destruct err; eexists; (split; [reflexivity|]); repeat split.
  - unfold bind at 1. erewrite RecycleOutData_local_spec by exact F.
    cbn [content oid recycler outData dataChan recycleChan logged buf].
    destruct (ZeroOutData Recycler d ps) as [[] [z ps']|[z ps']];
      eexists; (split; [reflexivity|]); repeat split.
Qed.

(** X27: The worker of a [Writer] never dies of its plugin and never keeps a
    scratch: it takes the first scratch off the data channel, and whether
    [Write] returns nil, returns an error (logged) or panics (logged, and
    nil is returned), it passes the scratch on to [ZeroOutData] and puts it
    at the end of the recycle channel; only a panic of [ZeroOutData],
    logged, keeps the scratch from the channel. *)
Theorem runner_step_recycles (s : State D PS) (o : OutData D)
    (rest : list (OutData D)) (n : nat) :
  buf (dataChan s) = o :: rest ->
  free (recycleChan s) = S n ->
  exists s',
    runner_step s = Done (write_lines (content o) (recycler s)) s' /\
    dataChan s' = mkChan rest (S (free (dataChan s))) /\
    let '(d, ps) := written (content o) (recycler s) in
    match ZeroOutData Recycler d ps with
    | Returned _ (z, ps') =>
      recycleChan s' = mkChan (buf (recycleChan s) ++ [mkOutData (oid o) z]) n /\
      logged s' = logged s /\ recycler s' = ps'
    | Panicked (z, ps') =>
      recycleChan s' = recycleChan s /\
      logged s' = logged s ++ [ZeroOutDataFailed] /\ recycler s' = ps'
    end.
Proof. apply runner_step_spec. Qed.

(** X28: The worker of a [BatchWriter] is not guarded in the same way.  A panic
    in [Batch] unwinds the goroutine: the scratch has left the data
    channel and is not recycled, [ZeroOutData] is not called and nothing is
    logged.  And an error that [Commit] returns is dropped: the tick logs
    a commit error only when [Commit] panics. *)
Theorem batch_runner_unguarded (s : State D PS) :
  (forall o rest d ps,
     buf (dataChan s) = o :: rest ->
     Batch BW (content o) (recycler s) = Panicked (d, ps) ->
     batch_runner_step s
     = Panics (mkState (refresh (mkOutData (oid o) d) (outData s))
                 (mkChan rest (S (free (dataChan s)))) (recycleChan s) ps (logged s))) /\
  (forall err ps,
     Commit BW (recycler s) = Returned err ps ->
     batch_runner_tick s
     = Done [] (mkState (outData s) (dataChan s) (recycleChan s) ps (logged s))) /\
  (forall ps,
     Commit BW (recycler s) = Panicked ps ->
     batch_runner_tick s
     = Done [CommitError "Error while calling commit on batchwriter"]
         (mkState (outData s) (dataChan s) (recycleChan s) ps (logged s))).
Proof.
  split; [|split].
  - intros o rest d ps E B. unfold batch_runner_step.
    unfold bind at 1, recv_dataChan. rewrite E.
    unfold bind at 1, on_object. cbn [recycler outData dataChan recycleChan logged].
    rewrite B. reflexivity.
  - intros err ps C. unfold batch_runner_tick, bind, safe_batchwriter_commit, ret.
    rewrite C. reflexivity.
  - intros ps C. unfold batch_runner_tick, bind, safe_batchwriter_commit, ret.
    rewrite C. reflexivity.
Qed.

(** X29: A scratch makes the round: delivered from the head of the recycle
    channel through an empty data channel to the worker, it is back at the
    end of the recycle channel, zeroed, whatever [Write] did, as long as
    [PrepOutData] returns nil and [ZeroOutData] returns.  The pool holds
    the same objects as before and the data channel is empty again. *)
Theorem Deliver_then_runner_step (pack : Pipeline.PipelinePack) (s : State D PS)
    (o : OutData D) (rest : list (OutData D)) (n : nat) (d z : D) (ps ps' : PS) :
  buf (recycleChan s) = o :: rest ->
  buf (dataChan s) = [] ->
  free (dataChan s) = S n ->
  PrepOutData Recycler pack (content o) None (recycler s) = Returned None (d, ps) ->
  ZeroOutData Recycler (fst (written d ps)) (snd (written d ps)) = Returned tt (z, ps') ->
  exists s1 s2,
    Deliver Recycler pack s = Done tt s1 /\
    runner_step s1 = Done (write_lines d ps) s2 /\
    buf (recycleChan s2) = rest ++ [mkOutData (oid o) z] /\
    free (recycleChan s2) = free (recycleChan s) /\
    dataChan s2 = dataChan s /\
    pool s2 ≡ₚ pool s.
Proof.
  intros Er Ed Fd P Z.
  eexists. 
  assert (D1 : Deliver Recycler pack s
               = Done tt (mkState (Some (mkOutData (oid o) d))
                            (mkChan (buf (dataChan s) ++ [mkOutData (oid o) d]) n)
                            (mkChan rest (S (free (recycleChan s)))) ps (logged s))).
  { unfold Deliver, safe_prepoutdata, recovering, on_scratch, claim_outData,
      send_dataChan, current, bind, ret. rewrite Er. simpl. rewrite P. simpl.
    rewrite Fd. reflexivity. }
  rewrite D1, Ed. cbn [app].
  match goal with
  | |- exists s2, Done tt ?s1 = _ /\ _ =>
    destruct (runner_step_spec s1 (mkOutData (oid o) d) [] (free (recycleChan s)))
      as (s2 & R & Dc & Rc); [reflexivity | reflexivity |]
  end.
  cbn [content oid recycler dataChan recycleChan logged buf free] in R, Dc, Rc.
  exists s2. split; [reflexivity|]. split; [exact R|].
  destruct (written d ps) as [d1 ps1]. cbn [fst snd] in Z. rewrite Z in Rc.
  destruct Rc as (Rc & _ & _).
  rewrite Rc, Dc. cbn [buf free]. repeat split.
  - destruct s as [od [db df] rc r lg]. simpl in *. subst. reflexivity.
  - unfold pool. rewrite Rc, Dc, Er, Ed. cbn [buf].
    rewrite fmap_app, !app_nil_r. simpl.
    symmetry. apply Permutation_cons_append.
Qed.

Lemma perm_back (a : nat) (l1 l2 : list nat) : (l1 ++ [a]) ++ l2 ≡ₚ a :: l1 ++ l2.
Proof. rewrite <- app_assoc. simpl. symmetry. apply Permutation_middle. Qed.

Lemma perm_end (a : nat) (l1 l2 : list nat) : l1 ++ (l2 ++ [a]) ≡ₚ a :: l1 ++ l2.
Proof. rewrite app_assoc. symmetry. apply Permutation_cons_append. Qed.

(** X30: [Deliver] conserves the pool.  Whenever it returns, the scratch
    objects on the two channels are the same as before, none doubled and
    none missing, except that the claimed one is gone when [ZeroOutData]
    panicked on it, and then the last line logged says so. *)
Theorem Deliver_conserves_pool (pack : Pipeline.PipelinePack) (s s' : State D PS) :
  Deliver Recycler pack s = Done tt s' ->
  pool s' ≡ₚ pool s \/
  exists o, head (buf (recycleChan s)) = Some o /\
            pool s ≡ₚ oid o :: pool s' /\
            last (logged s') = Some ZeroOutDataFailed.
Proof.
  unfold Deliver, RecycleOutData, safe_prepoutdata, recovering, on_scratch,
    claim_outData, send_dataChan, send_recycleChan, current, log, bind, ret, pool.
  destruct (buf (recycleChan s)) as [|o rest] eqn:Er; [discriminate|].
  simpl.
  destruct (PrepOutData Recycler pack (content o) None (recycler s))
    as [[e|] [d ps]|[d ps]]; simpl.
  - destruct (ZeroOutData Recycler d ps) as [[] [z ps']|[z ps']]; simpl;
      intros H; injection H as <-; simpl.
    + left. rewrite fmap_app. apply perm_back.
    + right. exists o. split; [reflexivity|]. split; [reflexivity | apply last_snoc].
  - destruct (free (dataChan s)); [discriminate|].
    intros H; injection H as <-; simpl.
    left. rewrite fmap_app. apply perm_end.
  - destruct (ZeroOutData Recycler d ps) as [[] [z ps']|[z ps']]; simpl;
      intros H; injection H as <-; simpl.
    + left. rewrite fmap_app. apply perm_back.
    + right. exists o. split; [reflexivity|]. split; [reflexivity | apply last_snoc].
Qed.

End Workers.


Lemma Deliver_outcomes_witness :
  Deliver (demo_recycler Works Works) demo_pack (init_state 0 1)
  = Parked (init_state 0 1) /\
  Deliver (demo_recycler Works Works) demo_pack demo_state
  = Done tt (mkState (Some (mkOutData 1 1)) (mkChan [mkOutData 1 1] 1)
               (mkChan [mkOutData 2 0] 1) 1 []).
Proof.
  split.
  - destruct (Deliver_outcomes (demo_recycler Works Works) demo_pack None
                (init_state 0 1)) as [A _].
    exact (proj1 (A eq_refl)).
  - destruct (Deliver_outcomes (demo_recycler Works Works) demo_pack None demo_state)
      as [_ B].
    destruct (B (mkOutData 1 0) [mkOutData 2 0] 1 1 eq_refl eq_refl) as [_ C].
    exact (proj1 (C eq_refl)).
Defined.

Lemma runner_step_recycles_witness :
  exists s',
    runner_step (demo_recycler Works Works) (demo_writer Crashes) busy_state
    = Done [WriterPanic] s' /\
    recycleChan s' = mkChan [mkOutData 2 0; mkOutData 1 0] 0 /\
    dataChan s' = mkChan [] 2.
Proof.
  destruct (runner_step_recycles (demo_recycler Works Works) (demo_writer Crashes)
              busy_state (mkOutData 1 5) [] 0 eq_refl eq_refl) as (s' & R & Dc & Rc).
  exists s'. split; [exact R|]. split; [exact (proj1 Rc) | exact Dc].
Defined.

Lemma batch_runner_unguarded_witness :
  batch_runner_step (demo_recycler Works Works) (demo_batchwriter Crashes) busy_state
  = Panics (mkState (Some (mkOutData 1 5)) (mkChan [] 2) (mkChan [mkOutData 2 0] 1) 1 []) /\
  batch_runner_tick (demo_batchwriter Works) busy_state
  = Done [] (mkState (Some (mkOutData 1 5)) (mkChan [mkOutData 1 5] 1)
               (mkChan [mkOutData 2 0] 1) 1 []).
Proof.
  destruct (batch_runner_unguarded (demo_recycler Works Works)
              (demo_batchwriter Crashes) busy_state) as (A & _ & _).
  destruct (batch_runner_unguarded (demo_recycler Works Works)
              (demo_batchwriter Works) busy_state) as (_ & B & _).
  split.
  - exact (A (mkOutData 1 5) [] 5 1 eq_refl eq_refl).
  - exact (B (Some "commit failed") 1 eq_refl).
Defined.

Lemma Deliver_then_runner_step_witness :
  exists s1 s2,
    Deliver (demo_recycler Works Works) demo_pack demo_state = Done tt s1 /\
    runner_step (demo_recycler Works Works) (demo_writer Fails) s1
    = Done [OutputWriterError "disk full"] s2 /\
    buf (recycleChan s2) = [mkOutData 2 0; mkOutData 1 0] /\
    free (recycleChan s2) = 0 /\
    dataChan s2 = mkChan [] 2 /\
    pool s2 ≡ₚ pool demo_state.
Proof.
  exact (Deliver_then_runner_step (demo_recycler Works Works) (demo_writer Fails)
           demo_pack demo_state (mkOutData 1 0) [mkOutData 2 0] 1 1 0 1 3
           eq_refl eq_refl eq_refl eq_refl eq_refl).
Defined.

Lemma Deliver_conserves_pool_witness :
  pool (mkState (Some (mkOutData 1 1)) (mkChan [mkOutData 1 1] 1)
          (mkChan [mkOutData 2 0] 1) 1 [])
  ≡ₚ pool demo_state \/
  exists o, head (buf (recycleChan demo_state)) = Some o /\
            pool demo_state
            ≡ₚ oid o :: pool (mkState (Some (mkOutData 1 1)) (mkChan [mkOutData 1 1] 1)
                                (mkChan [mkOutData 2 0] 1) 1 []) /\
            last (@nil LogLine) = Some ZeroOutDataFailed.
Proof.
  exact (Deliver_conserves_pool (demo_recycler Works Works) demo_pack demo_state _
           eq_refl).
Defined.

End RunnerOps.
